(** * py-mongosql: the statement compilers of [mongosql/statements.py]

    A shallow embedding of the six statement classes (projection, sort,
    group, criteria, join, aggregate) together with the properties of the
    translation that the specification states.

    Conventions of the embedding:
    - a raised Python exception is the [Raise] case of [result];
    - a [dict] that is only used as a map is a [gmap]; an [OrderedDict],
      and a JSON object whose entries are visited in order, is a list of
      entries in iteration order;
    - a [set] is a [gset];
    - calls into SQLAlchemy build terms of [sqlexpr] and [load_option]:
      the calls are recorded, not interpreted;
    - every test of the source for a sequence is [isinstance(x, (list,
      tuple))], so one constructor [PList] stands for both;
    - an integer outside the machine word is a Python 2 [long]
      ([sys_maxint]); a [long] that fits in a machine word and floating
      point numbers are not part of the value universe. *)

From stdpp Require Import base option list gmap strings fin_maps.
From Stdlib Require Import ZArith Ascii.

Set Warnings "-register-all".

Local Open Scope string_scope.
Local Open Scope Z_scope.

(** ** Exceptions and fallible computations *)

Inductive exn :=
| AssertionError (msg : string)
| KeyError (msg : string)
| IndexError (msg : string)
| TypeError (msg : string)
| AttributeError (msg : string).

Inductive result (A : Type) :=
| Ok (a : A)
| Raise (e : exn).
Arguments Ok {A} a.
Arguments Raise {A} e.

#[export] Instance result_ret : MRet result := fun A a => Ok a.
#[export] Instance result_bind : MBind result := fun A B f m =>
  match m with
  | Ok a => f a
  | Raise e => Raise e
  end.
#[export] Instance result_fmap : FMap result := fun A B f m =>
  match m with
  | Ok a => Ok (f a)
  | Raise e => Raise e
  end.

(** [assert cond, msg] *)
Definition py_assert (cond : bool) (msg : string) : result unit :=
  if cond then Ok tt else Raise (AssertionError msg).

(** Left-to-right traversal that stops at the first exception, the way a
    comprehension or a [map] call does. *)
Fixpoint traverse {A B : Type} (f : A → result B) (l : list A) : result (list B) :=
  match l with
  | [] => Ok []
  | x :: l' => y ← f x; ys ← traverse f l'; Ok (y :: ys)
  end.

(** ** Python values *)

Inductive pyval :=
| PNone
| PBool (b : bool)
| PInt (n : Z)
| PStr (s : string)
| PList (items : list pyval)
| PDict (entries : list (string * pyval)).

(** [bool(v)] *)
Definition truthy (v : pyval) : bool :=
  match v with
  | PNone => false
  | PBool b => b
  | PInt n => negb (n =? 0)
  | PStr s => negb (String.eqb s "")
  | PList items => negb (Nat.eqb (length items) 0)
  | PDict entries => negb (Nat.eqb (length entries) 0)
  end.

(** The number a value is, for [==] and [sum]: an [int], a [long], or a
    [bool], which is a subclass of [int]. *)
Definition int_value (v : pyval) : option Z :=
  match v with
  | PInt n => Some n
  | PBool b => Some (Z.b2z b)
  | _ => None
  end.

(** [sys.maxint] of a 64-bit CPython 2: an integer beyond it is a [long],
    not an [int]. *)
Definition sys_maxint : Z := 2 ^ 63 - 1.

(** [isinstance(v, int)]: a machine-word integer or a [bool] *)
Definition isinstance_int (v : pyval) : bool :=
  match v with
  | PInt n => (- sys_maxint - 1 <=? n) && (n <=? sys_maxint)
  | PBool _ => true
  | _ => false
  end.

Definition isinstance_list (v : pyval) : bool :=
  match v with PList _ => true | _ => false end.

Definition isinstance_dict (v : pyval) : bool :=
  match v with PDict _ => true | _ => false end.

Definition isinstance_basestring (v : pyval) : bool :=
  match v with PStr _ => true | _ => false end.

(** [v == n] for an integer literal [n] *)
Definition py_eq_int (v : pyval) (n : Z) : bool :=
  match int_value v with
  | Some m => m =? n
  | None => false
  end.

(** [sum(values)]: starts from [0] and adds from the left; adding anything
    that is not a number to an [int] raises. *)
Fixpoint py_sum_from (acc : Z) (values : list pyval) : result Z :=
  match values with
  | [] => Ok acc
  | v :: values' =>
      match int_value v with
      | Some n => py_sum_from (acc + n) values'
      | None => Raise (TypeError "unsupported operand type(s) for +")
      end
  end.

Definition py_sum (values : list pyval) : result Z := py_sum_from 0 values.

(** [any(values)] *)
Definition py_any (values : list pyval) : bool := existsb truthy values.

(** ** Strings *)

Definition comma : ascii := ","%char.
Definition plus_sign : ascii := "+"%char.
Definition minus_sign : ascii := "-"%char.

(** [s.split(sep)] for a one-character separator *)
Fixpoint split (sep : ascii) (s : string) : list string :=
  match s with
  | EmptyString => [EmptyString]
  | String c s' =>
      if Ascii.eqb c sep then EmptyString :: split sep s'
      else match split sep s' with
           | [] => [String c EmptyString]
           | tok :: toks => String c tok :: toks
           end
  end.

(** [s[-1]]: raises on the empty string *)
Fixpoint last_char (s : string) : option ascii :=
  match s with
  | EmptyString => None
  | String c EmptyString => Some c
  | String _ s' => last_char s'
  end.

(** [s[:-1]] *)
Fixpoint drop_last (s : string) : string :=
  match s with
  | EmptyString => EmptyString
  | String _ EmptyString => EmptyString
  | String c s' => String c (drop_last s')
  end.

(** [c in {'-', '+'}] *)
Definition is_sign (c : ascii) : bool := Ascii.eqb c minus_sign || Ascii.eqb c plus_sign.

(** [needle in haystack] on strings *)
Fixpoint mentions (needle haystack : string) : bool :=
  String.prefix needle haystack ||
  match haystack with
  | EmptyString => false
  | String _ rest => mentions needle rest
  end.

(** A string that holds no separator *)
Fixpoint free_of (sep : ascii) (s : string) : bool :=
  match s with
  | EmptyString => true
  | String c s' => negb (Ascii.eqb c sep) && free_of sep s'
  end.

(** A string that does not start with a sign *)
Definition unsigned (s : string) : bool :=
  match s with
  | EmptyString => true
  | String c _ => negb (is_sign c)
  end.

(** ** The schema view and the emitted fragments *)

Inductive sqltype :=
| Integer
| Text
| Boolean
| ARRAY (item_type : sqltype).

Record Column := { column_key : string; column_type : sqltype }.

(** [isinstance(col.type, pg.ARRAY)] *)
Definition is_array (col : Column) : bool :=
  match column_type col with ARRAY _ => true | _ => false end.

(** [col.type.item_type] *)
Definition item_type (col : Column) : sqltype :=
  match column_type col with ARRAY t => t | t => t end.

(** A model: [model.model_columns] and [model.model_relations]; of a
    relation only its name is used. *)
Record MongoModel := {
  model_columns : gmap string Column;
  model_relations : gmap string unit
}.

(** Query options of [sqlalchemy.orm] *)
Inductive load_option :=
| load_only (col : Column)
| lazyload (relname : string).

(** [d.items()], [d.keys()] and [d.values()] of a dict held as a map *)
Definition items {V} (d : gmap string V) : list (string * V) := map_to_list d.
Definition keys {V} (d : gmap string V) : list string := (map_to_list d).*1.
Definition values {V} (d : gmap string V) : list V := (map_to_list d).*2.

(** [columns[name]] *)
Definition getitem {V} (d : gmap string V) (name : string) : result V :=
  match d !! name with
  | Some v => Ok v
  | None => Raise (KeyError name)
  end.

(** ** MongoProjection *)

Module MongoProjection.

(** What [__init__] may receive: [None | str | list | tuple | dict]; of
    any other object only its truth value is observed. [InList] is a list or
    tuple of field names, all of them strings: a list that holds something
    else (an element that does not hash raises [TypeError] in the dict
    comprehension) is outside these inputs. *)
Inductive input :=
| InNone
| InStr (s : string)
| InList (names : list string)
| InDict (d : gmap string pyval)
| InOther (truth : bool).

(** [not projection] *)
Definition is_empty (projection : input) : bool :=
  match projection with
  | InNone => true
  | InStr s => String.eqb s ""
  | InList names => Nat.eqb (length names) 0
  | InDict d => Nat.eqb (size d) 0
  | InOther truth => negb truth
  end.

(** The statement object: [self.inclusion_mode] and [self.projection] *)
Record t := {
  inclusion_mode : bool;
  projection : gmap string pyval
}.

(** [{k: v for k in names}] *)
Definition dict_of_keys (v : pyval) (names : list string) : gmap string pyval :=
  foldl (fun d k => <[k := v]> d) ∅ names.

Definition init (projection : input) : result t :=
  if is_empty projection then
    Ok {| inclusion_mode := false; projection := ∅ |}
  else
    match projection with
    | InStr s =>
        let '(mode, rest) :=
          match s with
          | String c s' =>
              if is_sign c then (Ascii.eqb c plus_sign, s') else (true, s)
          | EmptyString => (true, s)
          end in
        Ok {| inclusion_mode := mode;
              projection := dict_of_keys (PInt (Z.b2z mode)) (split comma rest) |}
    | InList names =>
        Ok {| inclusion_mode := true;
              projection := dict_of_keys (PInt 1) names |}
    | InDict d =>
        total ← py_sum (values d);
        _ ← py_assert (bool_decide (total = 0) || bool_decide (total = Z.of_nat (size d)))
              "Dict projection values shall be all 0s or all 1s";
        Ok {| inclusion_mode := py_any (values d); projection := d |}
    | _ =>
        Raise (AssertionError "Projection must be one of: None, str, list, dict")
    end.

Definition columns (columns : gmap string Column) (projection : gmap string pyval)
    (inclusion_mode : bool) : result (list Column) :=
  _ ← py_assert (bool_decide (dom projection ⊆ dom columns))
        "Invalid column specified in projection";
  if inclusion_mode then
    traverse (fun '(name, inc) => getitem columns name) (items projection)
  else
    Ok (snd <$> filter (fun '(name, col) => name ∉ dom projection) (items columns)).

Definition options (cols : gmap string Column) (projection : gmap string pyval)
    (inclusion_mode : bool) : result (list load_option) :=
  cs ← columns cols projection inclusion_mode;
  Ok (map load_only cs).

Definition call (self : t) (model : MongoModel) : result (list load_option) :=
  options (model_columns model) (projection self) (inclusion_mode self).

End MongoProjection.

(** ** SQL expressions

    What the calls into [sqlalchemy.sql] build. *)

(** The right-hand side handed to a column operator: a Python value, bound
    as a parameter, or [cast(pg.array(value), pg.ARRAY(col.type.item_type))]. *)
Inductive operand :=
| Bind (v : pyval)
| CastArray (elements : list pyval) (item_type : sqltype).

Inductive comparison := Eq | Ne | Lt | Le | Ge | Gt.

Inductive sqlexpr :=
| ColumnRef (col : Column)
| PyTrue
| Literal (o : operand)
| Compare (op : comparison) (lhs : sqlexpr) (rhs : operand)
| AnyOf (col : sqlexpr) (rhs : operand)
| AllOf (col : sqlexpr) (rhs : operand) (op : comparison)
| Overlap (col : sqlexpr) (rhs : operand)
| Contains (col : sqlexpr) (rhs : operand)
| In_ (col : sqlexpr) (rhs : operand)
| NotIn_ (col : sqlexpr) (rhs : operand)
| Func (name : string) (args : list sqlexpr)
| Mul (e : sqlexpr) (factor : pyval)
| Cast (e : sqlexpr) (type_ : sqltype)
| And_ (clauses : list sqlexpr)
| Or_ (clauses : list sqlexpr)
| Not_ (e : sqlexpr)
| Invert (e : sqlexpr)
| SelfGroup (e : sqlexpr)
| Label (e : sqlexpr) (name : string)
| Desc (e : sqlexpr).

(** ** MongoSort and MongoGroup *)

Module MongoSort.

(** What [__init__] may receive: an [OrderedDict], its entries in order,
    or any other value. *)
Inductive input :=
| InValue (v : pyval)
| InOrderedDict (d : list (string * pyval)).

(** [not sort_spec] *)
Definition is_empty (sort_spec : input) : bool :=
  match sort_spec with
  | InValue v => negb (truthy v)
  | InOrderedDict d => Nat.eqb (length d) 0
  end.

(** [d[k] = v] on an [OrderedDict]: a known key keeps its place *)
Fixpoint odict_set (k : string) (v : pyval) (d : list (string * pyval))
    : list (string * pyval) :=
  match d with
  | [] => [(k, v)]
  | (k', v') :: d' =>
      if String.eqb k' k then (k, v) :: d' else (k', v') :: odict_set k v d'
  end.

(** [OrderedDict(pairs)] *)
Definition OrderedDict (pairs : list (string * pyval)) : list (string * pyval) :=
  foldl (fun d '(k, v) => odict_set k v d) [] pairs.

(** The strings of a list, when [all(isinstance(v, basestring) for v in l)] *)
Fixpoint all_strings (l : list pyval) : option (list string) :=
  match l with
  | [] => Some []
  | PStr s :: l' => cons s <$> all_strings l'
  | _ :: _ => None
  end.

(** One element of the comprehension over the tokens:
    [[v[:-1], -1 if v[-1] == '-' else +1] if v[-1] in {'+', '-'} else [v, +1]] *)
Definition token (v : string) : result (string * pyval) :=
  match last_char v with
  | None => Raise (IndexError "string index out of range")
  | Some c =>
      if is_sign c
      then Ok (drop_last v, PInt (if Ascii.eqb c minus_sign then -1 else 1))
      else Ok (v, PInt 1)
  end.

(** [dir in {-1, +1}]: membership in a set hashes [dir] *)
Definition is_direction (dir : pyval) : result bool :=
  match dir with
  | PList _ | PDict _ => Raise (TypeError "unhashable type")
  | _ => Ok (py_eq_int dir (-1) || py_eq_int dir 1)
  end.

(** [all(dir in {-1, +1} for field, dir in self.sort.items())] *)
Fixpoint all_directions (entries : list (string * pyval)) : result bool :=
  match entries with
  | [] => Ok true
  | (_, dir) :: rest =>
      b ← is_direction dir;
      if b : bool then all_directions rest else Ok false
  end.

Section Statement.
(** [type(self).__name__], [cls.__name__] *)
Variable cls_name : string.

Definition init (sort_spec : input) : result (list (string * pyval)) :=
  (* Empty *)
  let sort_spec := if is_empty sort_spec then InValue (PList []) else sort_spec in
  (* String *)
  let sort_spec :=
    match sort_spec with
    | InValue (PStr s) => InValue (PList (PStr <$> split comma s))
    | _ => sort_spec
    end in
  (* List *)
  sort_spec ←
    match sort_spec with
    | InValue (PList l) =>
        match all_strings l with
        | Some tokens => pairs ← traverse token tokens; Ok (InOrderedDict (OrderedDict pairs))
        | None => Ok sort_spec
        end
    | _ => Ok sort_spec
    end;
  (* OrderedDict *)
  match sort_spec with
  | InOrderedDict d =>
      ok ← all_directions d;
      _ ← py_assert ok (cls_name ++ " direction can be either +1 or -1");
      Ok d
  | _ =>
      Raise (AssertionError
               (cls_name ++ " must be one of: None, string, list of strings, OrderedDict"))
  end.

Definition columns (columns : gmap string Column) (sort : list (string * pyval))
    : result (list sqlexpr) :=
  _ ← py_assert (bool_decide (list_to_set (sort.*1) ⊆@{gset string} dom columns))
        ("Invalid column specified in " ++ cls_name);
  traverse (fun '(name, d) =>
              col ← getitem columns name;
              Ok (if py_eq_int d (-1) then Desc (ColumnRef col) else ColumnRef col))
           sort.

Definition call (self : list (string * pyval)) (model : MongoModel) : result (list sqlexpr) :=
  columns (model_columns model) self.
End Statement.

End MongoSort.

Module MongoGroup.

Definition init (group_spec : MongoSort.input) : result (list (string * pyval)) :=
  MongoSort.init "MongoGroup" group_spec.

Definition call (self : list (string * pyval)) (model : MongoModel) : result (list sqlexpr) :=
  MongoSort.columns "MongoGroup" (model_columns model) self.

End MongoGroup.

(** ** MongoCriteria *)

Module MongoCriteria.

Definition init (criteria : pyval) : result pyval :=
  let criteria := if truthy criteria then criteria else PDict [] in
  _ ← py_assert (isinstance_dict criteria) "Criteria must be one of: None, dict";
  Ok criteria.

(** The double quote character of the message for an unsupported operator *)
Definition dquote : string :=
  String (Ascii false true false false false true false false) EmptyString.

(** [{'$or', '$and', '$nor', '$not'}] *)
Definition boolean_keys : gset string := {[ "$or"; "$and"; "$nor"; "$not" ]}.

(** [if value:] on the operand of [$exists]; SQLAlchemy defines no truth
    value for a cast clause. *)
Definition operand_truth (value : operand) : result bool :=
  match value with
  | Bind v => Ok (truthy v)
  | CastArray _ _ => Raise (TypeError "Boolean value of this clause is not defined")
  end.

(** [value == 0] on the operand of [$size]; on a cast clause [==] builds a
    binary expression, whose truth value is false. *)
Definition operand_is_zero (value : operand) : bool :=
  match value with
  | Bind v => py_eq_int v 0
  | CastArray _ _ => false
  end.

(** The body of the loop over the operators of one column: the condition
    it appends. *)
Definition operator_condition (col : Column) (op : string) (value : pyval)
    : result sqlexpr :=
  let col_array := is_array col in
  let value_array := isinstance_list value in
  (* Cast to array *)
  let value :=
    match value with
    | PList elements => if col_array then CastArray elements (item_type col) else Bind value
    | _ => Bind value
    end in
  let col := ColumnRef col in
  if String.eqb op "$eq" then
    if col_array then
      if value_array then Ok (Compare Eq col value)
      else Ok (AnyOf col value)
    else Ok (Compare Eq col value)
  else if String.eqb op "$ne" then
    if col_array && negb value_array then
      if value_array then Ok (Compare Ne col value)
      else Ok (AllOf col value Ne)
    else Ok (Compare Ne col value)
  else if String.eqb op "$lt" then Ok (Compare Lt col value)
  else if String.eqb op "$lte" then Ok (Compare Le col value)
  else if String.eqb op "$gte" then Ok (Compare Ge col value)
  else if String.eqb op "$gt" then Ok (Compare Gt col value)
  else if String.eqb op "$in" then
    _ ← py_assert value_array "Criteria: $in argument must be a list";
    if col_array then Ok (Overlap col value) else Ok (In_ col value)
  else if String.eqb op "$nin" then
    _ ← py_assert value_array "Criteria: $nin argument must be a list";
    if col_array then Ok (Invert (Overlap col value)) else Ok (NotIn_ col value)
  else if String.eqb op "$exists" then
    b ← operand_truth value;
    if b : bool then Ok (Compare Ne col (Bind PNone)) else Ok (Compare Eq col (Bind PNone))
  else if String.eqb op "$all" then
    _ ← py_assert col_array "Criteria: $all can only be applied to an array column";
    _ ← py_assert value_array "Criteria: $all argument must be a list";
    Ok (Contains col value)
  else if String.eqb op "$size" then
    _ ← py_assert col_array "Criteria: $all can only be applied to an array column";
    let array_length := Func "array_length" [col; Literal (Bind (PInt 1))] in
    if operand_is_zero value then Ok (Compare Eq array_length (Bind PNone))
    else Ok (Compare Eq array_length value)
  else
    Raise (AssertionError ("Criteria: unsupported operator " ++ dquote ++ op ++ dquote)).

(** A column entry [col_name: criteria] of the criteria: the conditions
    it appends. *)
Definition column_conditions (columns : gmap string Column) (col_name : string)
    (criteria : pyval) : result (list sqlexpr) :=
  (* Prepare *)
  col ← getitem columns col_name;
  (* Fake equality *)
  let criteria :=
    match criteria with
    | PDict operators => operators
    | _ => [("$eq", criteria)]
    end in
  (* Iterate over operators *)
  traverse (fun '(op, value) => operator_condition col op value) criteria.

(** [cc.self_group() if len(clauses) > 1 else cc] *)
Definition grouped (cc : sqlexpr) (clauses : list sqlexpr) : sqlexpr :=
  if (1 <? length clauses)%nat then SelfGroup cc else cc.

(** A [$or], [$and] or [$nor] entry over the compiled, non-empty list of
    its arguments: the condition it appends. *)
Definition boolean_condition (col_name : string) (criteria : list sqlexpr)
    : result sqlexpr :=
  if String.eqb col_name "$or" then Ok (grouped (Or_ criteria) criteria)
  else if String.eqb col_name "$and" then Ok (grouped (And_ criteria) criteria)
  else if String.eqb col_name "$nor" then
    Ok (if (1 <? length criteria)%nat
        then Invert (SelfGroup (Or_ criteria)) else Invert (Or_ criteria))
  else Raise (KeyError ("Unknown operator " ++ col_name)).

(** [col_name in {'$or', '$and', '$nor'}] *)
Definition is_boolean_list_key (col_name : string) : bool :=
  String.eqb col_name "$or" || String.eqb col_name "$and" || String.eqb col_name "$nor".

Fixpoint statetement (columns : gmap string Column) (criteria : pyval) {struct criteria}
    : result sqlexpr :=
  match criteria with
  | PDict entries =>
      _ ← py_assert
            (bool_decide (list_to_set (entries.*1) ∖ boolean_keys ⊆@{gset string} dom columns))
            "Invalid column specified in Criteria";
      conditions ←
        (fix loop (entries : list (string * pyval)) : result (list sqlexpr) :=
           match entries with
           | [] => Ok []
           | (col_name, criteria) :: rest =>
               appended ←
                 (if is_boolean_list_key col_name then
                    (* Boolean expressions? *)
                    match criteria with
                    | PList [] => Ok []  (* skip empty *)
                    | PList subcriteria =>
                        compiled ←
                          (fix each (l : list pyval) : result (list sqlexpr) :=
                             match l with
                             | [] => Ok []
                             | s :: l' =>
                                 e ← statetement columns s;
                                 es ← each l';
                                 Ok (e :: es)
                             end) subcriteria;
                        cc ← boolean_condition col_name compiled;
                        Ok [cc]
                    | _ =>
                        Raise (AssertionError
                                 ("Criteria: " ++ col_name ++ " argument must be a list"))
                    end
                  else if String.eqb col_name "$not" then
                    match criteria with
                    | PDict _ =>
                        negated ← statetement columns criteria;
                        Ok [Not_ negated]
                    | _ => Raise (AssertionError "Criteria: $not argument must be a dict")
                    end
                  else column_conditions columns col_name criteria);
               more ← loop rest;
               Ok (appended ++ more)%list
           end) entries;
      match conditions with
      | [] => Ok PyTrue
      | _ => Ok (grouped (And_ conditions) conditions)
      end
  | _ => Raise (AttributeError "keys")
  end.

Definition call (self : pyval) (model : MongoModel) : result sqlexpr :=
  statetement (model_columns model) self.

End MongoCriteria.

(** ** MongoJoin *)

Module MongoJoin.

(** What [__init__] may receive: [None], a string, a list or tuple of
    relation names, or anything else. *)
Inductive input :=
| InNone
| InStr (s : string)
| InList (names : list string)
| InOther.

Definition init (relnames : input) : result (list string) :=
  match relnames with
  | InOther => Raise (AssertionError "Join must be one of: None, str, list, tuple")
  | InNone => Ok []
  | InStr s => if String.eqb s "" then Ok [] else Ok (split comma s)
  | InList names => if Nat.eqb (length names) 0 then Ok [] else Ok names
  end.

Definition options (model_relations : gmap string unit) (relnames : list string)
    : result (list load_option) :=
  let relnames : gset string := list_to_set relnames in
  let model_relnames : gset string := dom model_relations in
  _ ← py_assert (bool_decide (relnames ⊆ model_relnames))
        "Invalid column specified in MongoJoin";
  Ok (lazyload <$> filter (fun relname => relname ∉ relnames) (elements model_relnames)).

Definition call (self : list string) (model : MongoModel) : result (list load_option) :=
  options (model_relations model) self.

End MongoJoin.

(** ** MongoAggregate

    [selectables] takes the only entry out of every computed expression
    with [dict.popitem], which changes the dict object the specification
    holds. The dict objects of the computed expressions therefore live in
    a store, and the specification refers to them by location. *)

Module MongoAggregate.

Definition loc := positive.

(** The dict objects of the computed expressions, entries in iteration
    order *)
Definition store := gmap loc (list (string * pyval)).

(** A value of the aggregation spec: a column name, a reference to a dict
    object, or an object of any other type. The locations of a spec are
    locations of the store; at a location outside the store the length
    assertion of the loop body fails. *)
Inductive expression :=
| Name (column : string)
| DictAt (l : loc)
| OtherObject.

(** What [__init__] may receive: [None], a dict (entries in iteration
    order), or anything else, of which only the truth value is observed. *)
Inductive input :=
| InNone
| InDict (entries : list (string * expression))
| InOther (truth : bool).

Definition init (agg_spec : input) : result (list (string * expression)) :=
  match agg_spec with
  | InNone => Ok []
  | InDict entries => Ok entries
  | InOther truth =>
      if truth then Raise (AssertionError "Aggregate spec must be one of: None, dict")
      else Ok []
  end.

(** Computations that read and write the store and may raise; the store
    keeps the writes made before an exception. *)
Definition stateful (A : Type) : Type := store → result A * store.

Definition pure {A} (a : A) : stateful A := fun h => (Ok a, h).

Definition bind {A B} (m : stateful A) (f : A → stateful B) : stateful B :=
  fun h =>
    match m h with
    | (Ok a, h') => f a h'
    | (Raise e, h') => (Raise e, h')
    end.

Definition lift {A} (r : result A) : stateful A := fun h => (r, h).

Definition deref (l : loc) : stateful (option (list (string * pyval))) :=
  fun h => (Ok (h !! l), h).

Definition assign (l : loc) (d : list (string * pyval)) : stateful unit :=
  fun h => (Ok tt, <[l := d]> h).

Notation "'let*' x ':=' m 'in' k" := (bind m (fun x => k))
  (at level 10, x pattern, m at level 100, k at level 200).

(** [d.popitem()]: the entry taken out and what is left of the dict *)
Definition popitem (d : list (string * pyval))
    : option ((string * pyval) * list (string * pyval)) :=
  match reverse d with
  | [] => None
  | entry :: rest => Some (entry, reverse rest)
  end.

(** [comp_expression.popitem()] on the dict object at [l] *)
Definition popitem_at (l : loc) : stateful (string * pyval) :=
  let* d := deref l in
  match d ≫= popitem with
  | Some (entry, rest) => let* _ := assign l rest in pure entry
  | None => lift (Raise (KeyError "popitem(): dictionary is empty"))
  end.

(** Expression statement: the integer of the special case for count, or
    an SQL expression. *)
Definition expression_statement (columns : gmap string Column) (operator : string)
    (expression : pyval) : result (pyval + sqlexpr) :=
  if isinstance_int expression && String.eqb operator "$sum" then
    (* Special case for count *)
    Ok (inl expression)
  else
    match expression with
    | PStr name =>
        (* Column name *)
        _ ← py_assert (bool_decide (name ∈ dom columns))
              ("Aggregate: invalid column `" ++ name ++ "`");
        col ← getitem columns name;
        Ok (inr (ColumnRef col))
    | PDict _ =>
        (* Boolean expression *)
        expression_stmt ← MongoCriteria.statetement columns expression;
        (* Need to cast it to int *)
        Ok (inr (Cast expression_stmt Integer))
    | _ =>
        Raise (AssertionError
                 "Aggregate: expression should be either a column name, or an object")
    end.

(** An expression statement as the argument of an SQL function *)
Definition argument (expression_stmt : pyval + sqlexpr) : sqlexpr :=
  match expression_stmt with
  | inl n => Literal (Bind n)
  | inr e => e
  end.

(** Operator *)
Definition computed_statement (operator : string) (expression_stmt : pyval + sqlexpr)
    : result sqlexpr :=
  if String.eqb operator "$max" then Ok (Func "max" [argument expression_stmt])
  else if String.eqb operator "$min" then Ok (Func "min" [argument expression_stmt])
  else if String.eqb operator "$avg" then Ok (Func "avg" [argument expression_stmt])
  else if String.eqb operator "$sum" then
    match expression_stmt with
    | inl n =>
        (* Special case for count *)
        let comp_stmt := Func "count" [] in
        Ok (if negb (py_eq_int n 1) then Mul comp_stmt n else comp_stmt)
    | inr e => Ok (Func "sum" [e])
    end
  else
    Raise (AssertionError
             ("Aggregate: unsupported operator " ++ MongoCriteria.dquote ++ operator
                ++ MongoCriteria.dquote)).

(** The body of the loop over the entries of the spec: the selectable it
    appends. *)
Definition selectable (columns : gmap string Column) (comp_field : string)
    (comp_expression : expression) : stateful sqlexpr :=
  match comp_expression with
  | Name column =>
      (* Column reference *)
      lift (_ ← py_assert (bool_decide (column ∈ dom columns))
                  ("Aggregate: Invalid column `" ++ column ++ "`");
            col ← getitem columns column;
            Ok (Label (ColumnRef col) comp_field))
  | DictAt l =>
      (* Computed expression *)
      let* d := deref l in
      let* _ := lift (py_assert (bool_decide (length <$> d = Some 1%nat))
                        "Aggregate: expression can only contain a single operator") in
      let* entry := popitem_at l in
      let '(operator, expression) := entry in
      lift (expression_stmt ← expression_statement columns operator expression;
            comp_stmt ← computed_statement operator expression_stmt;
            Ok (Label comp_stmt comp_field))
  | OtherObject =>
      lift (Raise (AssertionError
                     "Aggregate: Expression should be either a column name, or an object"))
  end.

Fixpoint selectables (columns : gmap string Column)
    (agg_spec : list (string * expression)) : stateful (list sqlexpr) :=
  match agg_spec with
  | [] => pure []
  | (comp_field, comp_expression) :: rest =>
      let* s := selectable columns comp_field comp_expression in
      let* ss := selectables columns rest in
      pure (s :: ss)
  end.

Definition call (self : list (string * expression)) (model : MongoModel)
    : stateful (list sqlexpr) :=
  selectables (model_columns model) self.

End MongoAggregate.

(** ** The loop of [statetement], entry by entry

    The body of the loop over the entries of a criteria, and the loop
    itself, as functions of their own; [statetement_entries] shows that
    [statetement] is the assertion on the keys, this loop and the final
    conjunction. *)

Definition entry_conditions (columns : gmap string Column) (col_name : string)
    (criteria : pyval) : result (list sqlexpr) :=
  if MongoCriteria.is_boolean_list_key col_name then
    match criteria with
    | PList [] => Ok []
    | PList subcriteria =>
        compiled ← traverse (MongoCriteria.statetement columns) subcriteria;
        cc ← MongoCriteria.boolean_condition col_name compiled;
        Ok [cc]
    | _ => Raise (AssertionError ("Criteria: " ++ col_name ++ " argument must be a list"))
    end
  else if String.eqb col_name "$not" then
    match criteria with
    | PDict _ =>
        negated ← MongoCriteria.statetement columns criteria;
        Ok [Not_ negated]
    | _ => Raise (AssertionError "Criteria: $not argument must be a dict")
    end
  else MongoCriteria.column_conditions columns col_name criteria.

Fixpoint criteria_conditions (columns : gmap string Column)
    (entries : list (string * pyval)) : result (list sqlexpr) :=
  match entries with
  | [] => Ok []
  | (col_name, criteria) :: rest =>
      appended ← entry_conditions columns col_name criteria;
      more ← criteria_conditions columns rest;
      Ok (appended ++ more)%list
  end.

(** [return cc.self_group() if len(conditions) > 1 else cc], or [True] *)
Definition conjunction (conditions : list sqlexpr) : sqlexpr :=
  match conditions with
  | [] => PyTrue
  | _ => MongoCriteria.grouped (And_ conditions) conditions
  end.

(** The operators of a column entry *)
Definition supported_operators : list string :=
  ["$eq"; "$ne"; "$lt"; "$lte"; "$gte"; "$gt"; "$in"; "$nin"; "$exists"; "$all"; "$size"].

(** The nesting depth of a value *)
Fixpoint depth (v : pyval) : nat :=
  match v with
  | PList items => S (foldr (fun item n => Nat.max (depth item) n) 0%nat items)
  | PDict entries => S (foldr (fun entry n => Nat.max (depth entry.2) n) 0%nat entries)
  | _ => 0%nat
  end.

(** The locations an aggregation spec refers to *)
Definition locations (agg_spec : list (string * MongoAggregate.expression))
    : list MongoAggregate.loc :=
  omap (fun entry => match entry.2 with
                     | MongoAggregate.DictAt l => Some l
                     | _ => None
                     end) agg_spec.

(** ** The leaves of a criteria and where their predicates land *)

(** [leaf_of name op value criteria]: the criteria holds the leaf
    [(name, op, value)], an operator entry of a column entry, at the top or
    under [$or], [$and], [$nor] and [$not] at any depth. *)
Inductive leaf_of (name op : string) (value : pyval) : pyval → Prop :=
| leaf_column entries operators :
    (name, PDict operators) ∈ entries →
    name ∉ MongoCriteria.boolean_keys →
    (op, value) ∈ operators →
    leaf_of name op value (PDict entries)
| leaf_under_list entries key items sub :
    (key, PList items) ∈ entries →
    MongoCriteria.is_boolean_list_key key = true →
    sub ∈ items →
    leaf_of name op value sub →
    leaf_of name op value (PDict entries)
| leaf_under_not entries sub :
    ("$not", sub) ∈ entries →
    leaf_of name op value sub →
    leaf_of name op value (PDict entries).

(** [occurs p e]: the predicate [p] is [e], or an operand of the
    conjunctions, disjunctions, negations and groupings [e] is made of. *)
Inductive occurs (p : sqlexpr) : sqlexpr → Prop :=
| occurs_here : occurs p p
| occurs_and clauses e : e ∈ clauses → occurs p e → occurs p (And_ clauses)
| occurs_or clauses e : e ∈ clauses → occurs p e → occurs p (Or_ clauses)
| occurs_not e : occurs p e → occurs p (Not_ e)
| occurs_invert e : occurs p e → occurs p (Invert e)
| occurs_group e : occurs p e → occurs p (SelfGroup e).

(** The predicate of a [$ne] leaf, in the words of the operator table of
    the specification: on an array column with an operand that is not a list,
    all the elements of the array differ from the operand; in every other
    case, the inequality of the column and the operand, a list operand of an
    array column being cast to the array type of the column as for every
    operator. *)
Inductive ne_predicate (col : Column) (value : pyval) : sqlexpr → Prop :=
| ne_all_differ :
    is_array col = true → isinstance_list value = false →
    ne_predicate col value (AllOf (ColumnRef col) (Bind value) Ne)
| ne_scalar_column :
    is_array col = false →
    ne_predicate col value (Compare Ne (ColumnRef col) (Bind value))
| ne_array_list elements :
    is_array col = true → value = PList elements →
    ne_predicate col value
      (Compare Ne (ColumnRef col) (CastArray elements (item_type col))).

(** The loop over the operators of a column entry *)
Definition operator_conditions (col : Column) (operators : list (string * pyval))
    : result (list sqlexpr) :=
  traverse (fun '(op, value) => MongoCriteria.operator_condition col op value) operators.

(** A computation that ends in a [KeyError] *)
Definition raises_key_error {A} (r : result A) : Prop := ∃ msg, r = Raise (KeyError msg).

Definition compile_criteria (criteria : pyval) (model : MongoModel) : result sqlexpr :=
  self ← MongoCriteria.init criteria; MongoCriteria.call self model.

(** ** Parsing followed by compilation *)

Definition compile_projection (projection : MongoProjection.input) (model : MongoModel)
    : result (list load_option) :=
  self ← MongoProjection.init projection; MongoProjection.call self model.

Definition compile_group (group_spec : MongoSort.input) (model : MongoModel)
    : result (list sqlexpr) :=
  self ← MongoGroup.init group_spec; MongoGroup.call self model.

Definition compile_join (relnames : MongoJoin.input) (model : MongoModel)
    : result (list load_option) :=
  self ← MongoJoin.init relnames; MongoJoin.call self model.

(** ** The schema of the end-to-end scenarios *)

Definition id_column : Column := {| column_key := "id"; column_type := Integer |}.
Definition name_column : Column := {| column_key := "name"; column_type := Text |}.
Definition age_column : Column := {| column_key := "age"; column_type := Integer |}.
Definition tags_column : Column := {| column_key := "tags"; column_type := ARRAY Text |}.

Definition example_model : MongoModel :=
  {| model_columns :=
       {[ "id" := id_column; "name" := name_column;
          "age" := age_column; "tags" := tags_column ]};
     model_relations := {[ "posts" := tt; "profile" := tt ]} |}.

(** The spec [{n: {$sum: 1}}]: the dict object [{$sum: 1}] sits at
    location 1 of the store. *)
Definition count_spec : list (string * MongoAggregate.expression) :=
  [("n", MongoAggregate.DictAt 1%positive)].
Definition count_store : MongoAggregate.store :=
  {[ 1%positive := [("$sum", PInt 1)] ]}.

(** ** Predicates on the values of a dict projection *)

(** The values a dict projection is documented to hold *)
Definition bit (v : pyval) : Prop := v = PInt 0 ∨ v = PInt 1.

(** How many values of a list are true *)
Definition ones (l : list pyval) : nat := length (filter (fun v => truthy v = true) l).

(** * Properties *)

(** ** Sort and group: evaluation at concrete inputs *)

(** C10: on the string [a,,b] the sort parser raises [IndexError] from
    taking the last character of the empty token, where the claim asks for
    a structured validation error. *)
Theorem sort_empty_token_index_error :
  MongoSort.init "MongoSort" (MongoSort.InValue (PStr "a,,b"))
  = Raise (IndexError "string index out of range").
Proof. vm_compute. reflexivity. Qed.

(** C2, as stated, fails: the group [id-] compiles to the descending key of
    the column, not to the bare column handle. *)
Lemma group_direction_counterexample :
  compile_group (MongoSort.InValue (PStr "id-")) example_model
  = Ok [Desc (ColumnRef id_column)]
  ∧ compile_group (MongoSort.InValue (PStr "id-")) example_model
  ≠ Ok [ColumnRef id_column].
Proof. split; vm_compute; [reflexivity | discriminate]. Qed.

(** C1, as stated, fails: the empty projection compiles to one load-only
    directive per column of the schema. *)
Lemma empty_projection_counterexample :
  (∃ plan, compile_projection MongoProjection.InNone example_model = Ok plan
     ∧ plan ≡ₚ [load_only id_column; load_only name_column;
                load_only age_column; load_only tags_column])
  ∧ compile_projection MongoProjection.InNone example_model ≠ Ok [].
Proof.
  split.
  - eexists. split; [vm_compute; reflexivity |].
    apply Permutation_skip, Permutation_swap.
  - vm_compute. discriminate.
Qed.

(** C4: the dict projection [{id: 2, name: 0}] mixes a truthy and a falsy
    value and is accepted, in inclusion mode, with both values kept. *)
Theorem mixed_projection_accepted :
  let d : gmap string pyval := {[ "id" := PInt 2; "name" := PInt 0 ]} in
  MongoProjection.init (MongoProjection.InDict d)
  = Ok {| MongoProjection.inclusion_mode := true; MongoProjection.projection := d |}
  ∧ existsb truthy (values d) = true
  ∧ existsb (fun v => negb (truthy v)) (values d) = true
  ∧ ∃ plan, compile_projection (MongoProjection.InDict d) example_model = Ok plan
     ∧ plan ≡ₚ [load_only id_column; load_only name_column].
Proof.
  repeat split; try (vm_compute; reflexivity).
  eexists. split; [vm_compute; reflexivity | reflexivity].
Qed.

(** C6: [$size] on the scalar column [name] raises the assertion of [$all]:
    the message names [$all], not the offending [$size]. *)
Theorem size_on_scalar_names_all :
  MongoCriteria.call (PDict [("name", PDict [("$size", PInt 0)])]) example_model
  = Raise (AssertionError "Criteria: $all can only be applied to an array column")
  ∧ mentions "$size" "Criteria: $all can only be applied to an array column" = false
  ∧ mentions "$all" "Criteria: $all can only be applied to an array column" = true.
Proof. vm_compute. repeat split; reflexivity. Qed.

(** C3: compiling [{n: {$sum: 1}}] empties the dict object of the computed
    expression, and compiling the same spec again raises. *)
Theorem aggregate_compile_consumes_spec :
  MongoAggregate.call count_spec example_model count_store
  = (Ok [Label (Func "count" []) "n"], {[ 1%positive := [] ]})
  ∧ MongoAggregate.call count_spec example_model {[ 1%positive := [] ]}
  = (Raise (AssertionError "Aggregate: expression can only contain a single operator"),
     {[ 1%positive := [] ]}).
Proof. vm_compute. split; reflexivity. Qed.

(** ** Helper lemmas: strings, sums, traversals *)

Lemma split_free_of sep s : free_of sep s = true → split sep s = [s].
Proof.
  induction s as [|c s IH]; simpl; [done|].
  destruct (Ascii.eqb c sep); simpl; [done|].
  intros Hs. by rewrite IH.
Qed.

Lemma split_append sep a b :
  free_of sep a = true → split sep (a ++ String sep b) = a :: split sep b.
Proof.
  induction a as [|c a IH]; simpl.
  - intros _. by rewrite Ascii.eqb_refl.
  - destruct (Ascii.eqb c sep); simpl; [done|].
    intros Ha. by rewrite IH.
Qed.

Lemma py_sum_from_ones acc (l : list pyval) :
  Forall (fun v => v = PInt 1) l → py_sum_from acc l = Ok (acc + Z.of_nat (length l)).
Proof.
  revert acc. induction l as [|v l IH]; intros acc Hl; simpl.
  - f_equal. lia.
  - inversion Hl as [|? ? Hv Hl']; subst. simpl. rewrite IH by done. f_equal. lia.
Qed.

Lemma py_any_ones (l : list pyval) :
  l ≠ [] → Forall (fun v => v = PInt 1) l → py_any l = true.
Proof.
  destruct l as [|v l]; [done|]. intros _ Hl.
  inversion Hl; subst. reflexivity.
Qed.

Lemma filter_all {A} (P : A → Prop) `{!∀ x, Decision (P x)} (l : list A) :
  Forall P l → filter P l = l.
Proof.
  induction 1 as [|x l Hx _ IH]; [done|].
  rewrite filter_cons_True by done. by rewrite IH.
Qed.

Lemma traverse_ok {A B} (f : A → result B) (g : A → B) (l : list A) :
  Forall (fun x => f x = Ok (g x)) l → traverse f l = Ok (g <$> l).
Proof.
  induction 1 as [|x l Hx _ IH]; [done|].
  simpl. rewrite Hx. simpl. rewrite IH. done.
Qed.

(** ** Projection *)

Lemma init_empty projection :
  MongoProjection.is_empty projection = true →
  MongoProjection.init projection
  = Ok {| MongoProjection.inclusion_mode := false; MongoProjection.projection := ∅ |}.
Proof. intros H. unfold MongoProjection.init. by rewrite H. Qed.

(** C1, amended: an empty projection (any input that Python takes as false:
    [None], the empty string, list or dict) is the exclusion of nothing, and
    compiles on every schema to one load-only directive per column of the
    schema, in the order the schema lists its columns. *)
Theorem empty_projection_loads_every_column projection model :
  MongoProjection.is_empty projection = true →
  compile_projection projection model = Ok (load_only <$> values (model_columns model)).
Proof.
  intros H. unfold compile_projection. rewrite (init_empty _ H). simpl.
  unfold MongoProjection.call, MongoProjection.options, MongoProjection.columns. simpl.
  rewrite bool_decide_eq_true_2 by (rewrite dom_empty_L; set_solver). simpl.
  rewrite filter_all; [done|].
  apply Forall_forall. intros [name col] _. rewrite dom_empty_L. set_solver.
Qed.

Lemma empty_projection_loads_every_column_witness :
  compile_projection (MongoProjection.InStr "") example_model
  = Ok (load_only <$> values (model_columns example_model)).
Proof. apply empty_projection_loads_every_column. reflexivity. Defined.

Lemma init_unsigned_string s :
  s ≠ "" → unsigned s = true →
  MongoProjection.init (MongoProjection.InStr s)
  = Ok {| MongoProjection.inclusion_mode := true;
          MongoProjection.projection :=
            MongoProjection.dict_of_keys (PInt 1) (split comma s) |}.
Proof.
  destruct s as [|c s]; [done|]. intros _ Hc. simpl in Hc.
  apply negb_true_iff in Hc. unfold MongoProjection.init. simpl. by rewrite Hc.
Qed.

Lemma init_plus_string s :
  MongoProjection.init (MongoProjection.InStr (String plus_sign s))
  = Ok {| MongoProjection.inclusion_mode := true;
          MongoProjection.projection :=
            MongoProjection.dict_of_keys (PInt 1) (split comma s) |}.
Proof. reflexivity. Qed.

(** The object [{a: 1, b: 1}]: [a] then [b] entered in an empty dict. *)
Lemma object_of_two_ones (a b : string) :
  let d : gmap string pyval := <[b := PInt 1]> (<[a := PInt 1]> ∅) in
  MongoProjection.init (MongoProjection.InDict d)
  = Ok {| MongoProjection.inclusion_mode := true; MongoProjection.projection := d |}.
Proof.
  intros d.
  assert (Hones : Forall (fun v => v = PInt 1) (values d)).
  { apply Forall_forall. intros v Hv. unfold values in Hv.
    apply list_elem_of_fmap in Hv as [[k v'] [-> Hkv]].
    apply elem_of_map_to_list in Hkv. subst d. simpl.
    destruct (decide (b = k)) as [->|Hb]; [rewrite lookup_insert_eq in Hkv; congruence|].
    rewrite lookup_insert_ne in Hkv by done.
    destruct (decide (a = k)) as [->|Ha]; [rewrite lookup_insert_eq in Hkv; congruence|].
    rewrite lookup_insert_ne, lookup_empty in Hkv by done. done. }
  assert (Hlen : length (values d) = size d).
  { unfold values. rewrite length_fmap. apply length_map_to_list. }
  assert (Hsize : size d ≠ 0%nat).
  { subst d. intros Hz. apply map_size_empty_inv in Hz.
    by apply insert_non_empty in Hz. }
  unfold MongoProjection.init.
  replace (MongoProjection.is_empty (MongoProjection.InDict d)) with false
    by (simpl; symmetry; by apply Nat.eqb_neq).
  unfold py_sum. rewrite py_sum_from_ones by done. simpl.
  rewrite Hlen.
  rewrite (bool_decide_eq_true_2 (0 + Z.of_nat (size d) = Z.of_nat (size d))) by lia.
  rewrite orb_true_r. simpl.
  rewrite py_any_ones; [done| |done].
  intros Hnil. rewrite Hnil in Hlen. simpl in Hlen. lia.
Qed.

(** C9, as stated, fails: for the field names [-x] and [y] the string form
    is an exclusion of [x] and [y], the list form an inclusion of [-x] and
    [y]. *)
Lemma projection_forms_counterexample :
  MongoProjection.init (MongoProjection.InStr ("-x" ++ "," ++ "y"))
  ≠ MongoProjection.init (MongoProjection.InList ["-x"; "y"]).
Proof. vm_compute. intros H. discriminate H. Qed.

(** C9, amended: for every pair of field names [a] and [b] that hold no
    comma, [a] not starting with [+] or [-], the string [a,b], the list
    [[a, b]], the object [{a: 1, b: 1}] and the signed string [+a,b] parse to
    the same canonical projection (inclusion mode, [a] and [b] mapped to 1),
    and so compile to the same plan on every schema. *)
Theorem projection_forms_agree (a b : string) :
  free_of comma a = true → free_of comma b = true → unsigned a = true →
  let canon := {| MongoProjection.inclusion_mode := true;
                  MongoProjection.projection := <[b := PInt 1]> (<[a := PInt 1]> ∅) |} in
  MongoProjection.init (MongoProjection.InStr (a ++ "," ++ b)) = Ok canon
  ∧ MongoProjection.init (MongoProjection.InList [a; b]) = Ok canon
  ∧ MongoProjection.init
      (MongoProjection.InDict (<[b := PInt 1]> (<[a := PInt 1]> ∅))) = Ok canon
  ∧ MongoProjection.init (MongoProjection.InStr ("+" ++ a ++ "," ++ b)) = Ok canon
  ∧ ∀ model,
      compile_projection (MongoProjection.InStr (a ++ "," ++ b)) model
      = MongoProjection.call canon model
      ∧ compile_projection (MongoProjection.InList [a; b]) model
        = MongoProjection.call canon model
      ∧ compile_projection
          (MongoProjection.InDict (<[b := PInt 1]> (<[a := PInt 1]> ∅))) model
        = MongoProjection.call canon model
      ∧ compile_projection (MongoProjection.InStr ("+" ++ a ++ "," ++ b)) model
        = MongoProjection.call canon model.
Proof.
  intros Ha Hb Hsign canon.
  assert (Hsplit : split comma (a ++ "," ++ b) = [a; b]).
  { change (a ++ "," ++ b) with (a ++ String comma b).
    rewrite split_append by done. by rewrite split_free_of. }
  assert (H1 : MongoProjection.init (MongoProjection.InStr (a ++ "," ++ b)) = Ok canon).
  { rewrite init_unsigned_string; [by rewrite Hsplit | by destruct a | by destruct a]. }
  assert (H2 : MongoProjection.init (MongoProjection.InList [a; b]) = Ok canon)
    by reflexivity.
  assert (H3 : MongoProjection.init
                 (MongoProjection.InDict (<[b := PInt 1]> (<[a := PInt 1]> ∅))) = Ok canon)
    by apply object_of_two_ones.
  assert (H4 : MongoProjection.init (MongoProjection.InStr ("+" ++ a ++ "," ++ b)) = Ok canon).
  { change ("+" ++ a ++ "," ++ b) with (String plus_sign (a ++ "," ++ b)).
    rewrite init_plus_string. by rewrite Hsplit. }
  do 4 (split; [done|]).
  intros model. unfold compile_projection. by rewrite H1, H2, H3, H4.
Qed.

Lemma projection_forms_agree_witness :
  MongoProjection.init (MongoProjection.InStr ("id" ++ "," ++ "name"))
  = MongoProjection.init (MongoProjection.InList ["id"; "name"]).
Proof.
  destruct (projection_forms_agree "id" "name") as (H1 & H2 & _); [reflexivity..|].
  rewrite H1, H2. reflexivity.
Defined.

(** ** Sort and group *)

Lemma traverse_Forall2 {A B} (f : A → result B) (R : A → B → Prop) (l : list A) :
  Forall (fun x => ∃ y, f x = Ok y ∧ R x y) l →
  ∃ ys, traverse f l = Ok ys ∧ Forall2 R l ys.
Proof.
  induction 1 as [|x l (y & Hy & HR) _ (ys & Hys & HRs)].
  - exists []. by split.
  - exists (y :: ys). simpl. rewrite Hy. simpl. rewrite Hys. by split; [|constructor].
Qed.

Lemma all_directions_Forall (entries : list (string * pyval)) :
  MongoSort.all_directions entries = Ok true →
  Forall (fun entry => py_eq_int entry.2 (-1) = true ∨ py_eq_int entry.2 1 = true) entries.
Proof.
  induction entries as [|[name dir] entries IH]; simpl; [by constructor|].
  destruct (MongoSort.is_direction dir) as [b|e] eqn:Hdir; simpl; [|done].
  destruct b; [|done]. intros Hrest. constructor; [|by apply IH].
  simpl. destruct dir; simpl in Hdir; try done; injection Hdir as Hdir;
    by apply orb_true_iff in Hdir.
Qed.

Lemma init_all_directions cls_name sort_spec (sort : list (string * pyval)) :
  MongoSort.init cls_name sort_spec = Ok sort →
  MongoSort.all_directions sort = Ok true.
Proof.
  unfold MongoSort.init.
  set (spec1 := if MongoSort.is_empty sort_spec then _ else _).
  set (spec2 := match spec1 with MongoSort.InValue (PStr s) => _ | _ => spec1 end).
  destruct (match spec2 with MongoSort.InValue (PList l) => _ | _ => Ok spec2 end)
    as [spec3|e]; simpl; [|done].
  destruct spec3 as [v|d]; [done|].
  destruct (MongoSort.all_directions d) as [[]|e] eqn:Hdirs; simpl; [|done..].
  by intros [= <-].
Qed.

(** C2, amended: for every valid group specification whose fields are
    columns of the schema, the compiled group plan is the ordered sequence
    with one key per entry, the direction applied as for a sort: the
    descending key of the column where the direction is -1, the bare column
    handle where it is +1. *)
Theorem group_plan_follows_directions group_spec (group : list (string * pyval)) model :
  MongoGroup.init group_spec = Ok group →
  (∀ name, name ∈ group.*1 → is_Some (model_columns model !! name)) →
  ∃ plan,
    MongoGroup.call group model = Ok plan
    ∧ MongoSort.call "MongoSort" group model = Ok plan
    ∧ Forall2 (fun entry key =>
                 ∃ col, model_columns model !! entry.1 = Some col
                   ∧ (py_eq_int entry.2 (-1) = true ∧ key = Desc (ColumnRef col)
                      ∨ py_eq_int entry.2 1 = true ∧ key = ColumnRef col))
              group plan.
Proof.
  intros Hinit Hcols.
  apply init_all_directions, all_directions_Forall in Hinit.
  unfold MongoGroup.call, MongoSort.call, MongoSort.columns.
  assert (Hsub : list_to_set (group.*1) ⊆@{gset string} dom (model_columns model)).
  { intros name Hname. apply elem_of_list_to_set in Hname.
    by apply elem_of_dom, Hcols. }
  rewrite !(bool_decide_eq_true_2 _ Hsub). simpl.
  match goal with |- ∃ plan, traverse ?f group = _ ∧ _ =>
    destruct (traverse_Forall2 f
      (fun entry key =>
         ∃ col, model_columns model !! entry.1 = Some col
           ∧ (py_eq_int entry.2 (-1) = true ∧ key = Desc (ColumnRef col)
              ∨ py_eq_int entry.2 1 = true ∧ key = ColumnRef col)) group)
      as (plan & Hplan & HR)
  end.
  - apply Forall_forall. intros [name d] Hin.
    destruct (Hcols name) as [col Hcol].
    { apply list_elem_of_fmap. by exists (name, d). }
    rewrite Forall_forall in Hinit. specialize (Hinit _ Hin). simpl in Hinit.
    unfold getitem. rewrite Hcol. simpl.
    eexists. split; [done|]. exists col. split; [done|].
    destruct (py_eq_int d (-1)) eqn:Hd; [by left|].
    right. by destruct Hinit.
  - by exists plan.
Qed.

Lemma group_plan_follows_directions_witness :
  ∃ plan,
    MongoGroup.call [("age", PInt (-1)); ("name", PInt 1)] example_model = Ok plan
    ∧ MongoSort.call "MongoSort" [("age", PInt (-1)); ("name", PInt 1)] example_model = Ok plan
    ∧ Forall2 (fun entry key =>
                 ∃ col, model_columns example_model !! entry.1 = Some col
                   ∧ (py_eq_int entry.2 (-1) = true ∧ key = Desc (ColumnRef col)
                      ∨ py_eq_int entry.2 1 = true ∧ key = ColumnRef col))
              [("age", PInt (-1)); ("name", PInt 1)] plan.
Proof.
  apply (group_plan_follows_directions (MongoSort.InValue (PStr "age-,name"))).
  - vm_compute. reflexivity.
  - intros name Hname. simpl in Hname.
    apply elem_of_cons in Hname as [->|Hname]; [by eexists|].
    apply elem_of_cons in Hname as [->|Hname]; [by eexists|].
    by apply not_elem_of_nil in Hname.
Defined.

(** ** Criteria *)

Lemma not_boolean_key name :
  name ∉ MongoCriteria.boolean_keys →
  MongoCriteria.is_boolean_list_key name = false ∧ String.eqb name "$not" = false.
Proof.
  unfold MongoCriteria.boolean_keys, MongoCriteria.is_boolean_list_key. intros Hname.
  rewrite !orb_false_iff. repeat split; apply String.eqb_neq; set_solver.
Qed.

Lemma plain_name_not_boolean_key name :
  String.prefix "$" name = false → name ∉ MongoCriteria.boolean_keys.
Proof.
  intros Hname. unfold MongoCriteria.boolean_keys.
  rewrite !not_elem_of_union, !not_elem_of_singleton.
  repeat split; intros ->; discriminate.
Qed.

(** A criteria with one column entry compiles to the conjunction of the
    conditions of its operators. *)
Lemma statetement_column_entry (columns : gmap string Column) name col operators :
  name ∉ MongoCriteria.boolean_keys →
  columns !! name = Some col →
  MongoCriteria.statetement columns (PDict [(name, PDict operators)])
  = conditions ← traverse (fun '(op, value) => MongoCriteria.operator_condition col op value)
                          operators;
    match conditions with
    | [] => Ok PyTrue
    | _ => Ok (MongoCriteria.grouped (And_ conditions) conditions)
    end.
Proof.
  intros Hname Hcol. apply not_boolean_key in Hname as Hkeys. destruct Hkeys as [Hlist Hnot].
  cbn [MongoCriteria.statetement]. rewrite Hlist, Hnot.
  rewrite bool_decide_eq_true_2.
  2:{ intros k Hk. apply elem_of_dom.
      apply elem_of_difference in Hk as [Hk _].
      apply elem_of_list_to_set, list_elem_of_singleton in Hk as ->. by eexists. }
  unfold MongoCriteria.column_conditions, getitem. rewrite Hcol.
  simpl. destruct (traverse _ operators) as [conditions|e]; simpl; [|done].
  by rewrite app_nil_r.
Qed.

(** The operator constraints that hold of the code: [$all] on a scalar
    column, and [$in] or [$nin] with an operand that is not a list, raise an
    assertion whose message names the operator. *)
Lemma operator_constraints_named (columns : gmap string Column) name col value :
  name ∉ MongoCriteria.boolean_keys →
  columns !! name = Some col →
  (is_array col = false →
   ∃ msg, MongoCriteria.statetement columns (PDict [(name, PDict [("$all", value)])])
          = Raise (AssertionError msg) ∧ mentions "$all" msg = true)
  ∧ (isinstance_list value = false →
     ∃ msg, MongoCriteria.statetement columns (PDict [(name, PDict [("$in", value)])])
            = Raise (AssertionError msg) ∧ mentions "$in" msg = true)
  ∧ (isinstance_list value = false →
     ∃ msg, MongoCriteria.statetement columns (PDict [(name, PDict [("$nin", value)])])
            = Raise (AssertionError msg) ∧ mentions "$nin" msg = true).
Proof.
  intros Hname Hcol.
  rewrite !(statetement_column_entry _ _ _ _ Hname Hcol).
  unfold MongoCriteria.operator_condition. simpl.
  split; [|split].
  - intros ->. simpl. by eexists.
  - intros ->. simpl. by eexists.
  - intros ->. simpl. by eexists.
Qed.

(** [$size] on a scalar column raises as well, for every operand, with the
    message of [$all]. *)
Lemma size_constraint_message (columns : gmap string Column) name col value :
  name ∉ MongoCriteria.boolean_keys →
  columns !! name = Some col →
  is_array col = false →
  MongoCriteria.statetement columns (PDict [(name, PDict [("$size", value)])])
  = Raise (AssertionError "Criteria: $all can only be applied to an array column").
Proof.
  intros Hname Hcol Harray.
  rewrite (statetement_column_entry _ _ _ _ Hname Hcol).
  unfold MongoCriteria.operator_condition. simpl. by rewrite Harray.
Qed.

(** ** Join *)

(** C8: for every join request whose names are all relations of the schema,
    the plan holds a lazy-load directive for exactly the relations of the
    schema that are not requested, each once; a requested name that is not a
    relation of the schema makes the compilation raise the validation error
    of the join. *)
Theorem join_lazyloads_the_rest relnames (requested : list string) model :
  MongoJoin.init relnames = Ok requested →
  ((∀ r, r ∈ requested → r ∈ dom (model_relations model)) →
   ∃ plan,
     compile_join relnames model = Ok plan
     ∧ NoDup plan
     ∧ (∀ r, lazyload r ∈ plan ↔ r ∈ dom (model_relations model) ∧ r ∉ requested)
     ∧ (∀ o, o ∈ plan → ∃ r, o = lazyload r))
  ∧ ((∃ r, r ∈ requested ∧ r ∉ dom (model_relations model)) →
     compile_join relnames model
     = Raise (AssertionError "Invalid column specified in MongoJoin")).
Proof.
  intros Hinit. unfold compile_join. rewrite Hinit. simpl.
  unfold MongoJoin.call, MongoJoin.options. split.
  - intros Hknown.
    rewrite bool_decide_eq_true_2
      by (intros r Hr; apply elem_of_list_to_set in Hr; by apply Hknown).
    simpl. eexists. split; [done|]. split; [|split].
    + apply NoDup_fmap_2; [by intros r1 r2 [= ->]|].
      apply NoDup_filter, NoDup_elements.
    + intros r. rewrite list_elem_of_fmap. split.
      * intros (r' & [= <-] & Hr). apply list_elem_of_filter in Hr as [Hout Hin].
        apply elem_of_elements in Hin. rewrite elem_of_list_to_set in Hout. done.
      * intros [Hin Hout]. exists r. split; [done|].
        apply list_elem_of_filter. split; [by rewrite elem_of_list_to_set|].
        by apply elem_of_elements.
    + intros o Ho. apply list_elem_of_fmap in Ho as (r & -> & _). by exists r.
  - intros (r & Hr & Hunknown).
    rewrite bool_decide_eq_false_2; [done|].
    intros Hsub. apply Hunknown, Hsub. by apply elem_of_list_to_set.
Qed.

Lemma join_lazyloads_the_rest_witness :
  ∃ plan,
    compile_join (MongoJoin.InList ["posts"]) example_model = Ok plan
    ∧ NoDup plan
    ∧ (∀ r, lazyload r ∈ plan ↔ r ∈ dom (model_relations example_model) ∧ r ∉ ["posts"])
    ∧ (∀ o, o ∈ plan → ∃ r, o = lazyload r).
Proof.
  apply (join_lazyloads_the_rest (MongoJoin.InList ["posts"]) ["posts"] example_model).
  - reflexivity.
  - intros r Hr. apply list_elem_of_singleton in Hr as ->. by vm_compute.
Defined.

(** ** Aggregate *)

(** The loop body on a computed expression with one entry: the entry is
    taken out of the dict object, which is left empty. *)
Lemma selectable_single_entry (columns : gmap string Column) comp_field l operator
    expression (h : MongoAggregate.store) :
  h !! l = Some [(operator, expression)] →
  MongoAggregate.selectable columns comp_field (MongoAggregate.DictAt l) h
  = (expression_stmt ← MongoAggregate.expression_statement columns operator expression;
     comp_stmt ← MongoAggregate.computed_statement operator expression_stmt;
     Ok (Label comp_stmt comp_field),
     <[l := []]> h).
Proof.
  intros Hl.
  unfold MongoAggregate.selectable, MongoAggregate.popitem_at, MongoAggregate.bind,
    MongoAggregate.deref, MongoAggregate.lift, MongoAggregate.assign, MongoAggregate.pure.
  rewrite Hl. reflexivity.
Qed.

Lemma selectables_single_entry (columns : gmap string Column) comp_field l operator
    expression (h : MongoAggregate.store) :
  h !! l = Some [(operator, expression)] →
  (MongoAggregate.selectables columns [(comp_field, MongoAggregate.DictAt l)] h).1
  = (expression_stmt ← MongoAggregate.expression_statement columns operator expression;
     comp_stmt ← MongoAggregate.computed_statement operator expression_stmt;
     Ok [Label comp_stmt comp_field]).
Proof.
  intros Hl. cbn [MongoAggregate.selectables]. unfold MongoAggregate.bind at 1.
  rewrite (selectable_single_entry _ _ _ _ _ _ Hl).
  destruct (MongoAggregate.expression_statement columns operator expression)
    as [stmt|e]; simpl; [|done].
  destruct (MongoAggregate.computed_statement operator stmt); done.
Qed.

Lemma selectable_emptied_dict (columns : gmap string Column) comp_field l
    (h : MongoAggregate.store) :
  h !! l = Some [] →
  MongoAggregate.selectable columns comp_field (MongoAggregate.DictAt l) h
  = (Raise (AssertionError "Aggregate: expression can only contain a single operator"), h).
Proof.
  intros Hl.
  unfold MongoAggregate.selectable, MongoAggregate.bind, MongoAggregate.deref,
    MongoAggregate.lift.
  rewrite Hl. reflexivity.
Qed.

(** Whatever the model, compiling a spec with one computed expression of one
    operator leaves the dict object of the expression empty, and compiling
    the spec again on the store so left raises. *)
Lemma aggregate_second_compile_raises model comp_field l operator expression
    (h : MongoAggregate.store) :
  h !! l = Some [(operator, expression)] →
  let spec := [(comp_field, MongoAggregate.DictAt l)] in
  (MongoAggregate.call spec model h).2 !! l = Some []
  ∧ (MongoAggregate.call spec model (MongoAggregate.call spec model h).2).1
    = Raise (AssertionError "Aggregate: expression can only contain a single operator").
Proof.
  intros Hl spec.
  assert (Hstore : (MongoAggregate.call spec model h).2 = <[l := []]> h).
  { unfold MongoAggregate.call, spec. cbn [MongoAggregate.selectables].
    unfold MongoAggregate.bind at 1.
    rewrite (selectable_single_entry _ _ _ _ _ _ Hl).
    destruct (MongoAggregate.expression_statement _ operator expression)
      as [stmt|e]; simpl; [|done].
    destruct (MongoAggregate.computed_statement operator stmt); done. }
  rewrite Hstore. split; [apply lookup_insert_eq|].
  unfold MongoAggregate.call, spec. cbn [MongoAggregate.selectables].
  unfold MongoAggregate.bind at 1.
  rewrite selectable_emptied_dict by apply lookup_insert_eq. reflexivity.
Qed.

(** ** Dict projections over 0 and 1

    The part of the mixed-projection check that the sum of the values does
    decide: a dict whose values are all the integers 0 or 1. *)

Lemma py_sum_from_bits acc (l : list pyval) :
  Forall bit l → py_sum_from acc l = Ok (acc + Z.of_nat (ones l)).
Proof.
  unfold ones. revert acc. induction l as [|v l IH]; intros acc Hl; simpl.
  - f_equal. lia.
  - inversion Hl as [|? ? [-> | ->] Hl']; subst; cbn [py_sum_from int_value].
    + rewrite filter_cons_False by done. rewrite IH by done. f_equal. lia.
    + rewrite filter_cons_True by done. rewrite IH by done. cbn [length].
      f_equal. lia.
Qed.

Lemma ones_le_length (l : list pyval) : (ones l ≤ length l)%nat.
Proof. apply length_filter. Qed.

Lemma ones_zero (l : list pyval) : ones l = 0%nat → Forall (fun v => truthy v = false) l.
Proof.
  unfold ones. induction l as [|v l IH]; [by constructor|].
  destruct (truthy v) eqn:Hv.
  - rewrite filter_cons_True by done. done.
  - rewrite filter_cons_False by (rewrite Hv; done). intros Hl. constructor; auto.
Qed.

Lemma ones_all (l : list pyval) : ones l = length l → Forall (fun v => truthy v = true) l.
Proof.
  induction l as [|v l IH]; [by constructor|].
  pose proof (ones_le_length l) as Hle. unfold ones in *.
  destruct (truthy v) eqn:Hv.
  - rewrite filter_cons_True by done. simpl. intros [= Hl]. constructor; auto.
  - rewrite filter_cons_False by (rewrite Hv; done). simpl. lia.
Qed.

(** On dicts whose values are all 0 or 1 the check is exact: a dict that
    mixes the two is refused, and an accepted dict has every value agree
    with the mode. *)
Lemma bit_projection_unmixed (d : gmap string pyval) :
  map_Forall (fun _ v => bit v) d →
  (∀ self, MongoProjection.init (MongoProjection.InDict d) = Ok self →
     map_Forall (fun _ v => truthy v = MongoProjection.inclusion_mode self)
                (MongoProjection.projection self))
  ∧ ((∃ k v, d !! k = Some v ∧ truthy v = true) →
     (∃ k v, d !! k = Some v ∧ truthy v = false) →
     MongoProjection.init (MongoProjection.InDict d)
     = Raise (AssertionError "Dict projection values shall be all 0s or all 1s")).
Proof.
  intros Hbits.
  assert (Hvalues : Forall bit (values d)).
  { apply Forall_forall. intros v Hv. unfold values in Hv.
    apply list_elem_of_fmap in Hv as ([k v'] & -> & Hkv).
    apply elem_of_map_to_list in Hkv. by apply (Hbits k). }
  assert (Hlen : length (values d) = size d).
  { unfold values. rewrite length_fmap. apply length_map_to_list. }
  assert (Hin : ∀ k v, d !! k = Some v → v ∈ values d).
  { intros k v Hkv. unfold values. apply list_elem_of_fmap. exists (k, v).
    split; [done|]. by apply elem_of_map_to_list. }
  assert (Hany : ∀ b, Forall (fun v => truthy v = b) (values d) → values d ≠ [] →
                      py_any (values d) = b).
  { intros b Hall Hne. unfold py_any. destruct b.
    - destruct (values d) as [|v l]; [done|]. inversion Hall; subst. simpl.
      by replace (truthy v) with true.
    - apply not_true_is_false. intros Hex. apply existsb_exists in Hex as (v & Hv & Htrue).
      rewrite Forall_forall in Hall. apply list_elem_of_In in Hv.
      rewrite (Hall v Hv) in Htrue. done. }
  unfold MongoProjection.init. split.
  - intros self.
    destruct (MongoProjection.is_empty (MongoProjection.InDict d)) eqn:Hempty.
    { intros [= <-]. simpl. apply Nat.eqb_eq, map_size_empty_inv in Hempty.
      subst d. apply map_Forall_empty. }
    simpl in Hempty. apply Nat.eqb_neq in Hempty.
    assert (Hne : values d ≠ []).
    { intros Hnil. rewrite Hnil in Hlen. simpl in Hlen. lia. }
    unfold py_sum. rewrite py_sum_from_bits by done. simpl.
    destruct (bool_decide (0 + Z.of_nat (ones (values d)) = 0)) eqn:Hzero; simpl.
    + apply bool_decide_eq_true_1 in Hzero.
      assert (Hall : Forall (fun v => truthy v = false) (values d))
        by (apply ones_zero; lia).
      intros [= <-]. simpl. rewrite (Hany false Hall Hne).
      intros k v Hkv. rewrite Forall_forall in Hall. eauto.
    + destruct (bool_decide (0 + Z.of_nat (ones (values d)) = Z.of_nat (size d)))
        eqn:Hfull; simpl; [|done].
      apply bool_decide_eq_true_1 in Hfull.
      assert (Hall : Forall (fun v => truthy v = true) (values d))
        by (apply ones_all; lia).
      intros [= <-]. simpl. rewrite (Hany true Hall Hne).
      intros k v Hkv. rewrite Forall_forall in Hall. eauto.
  - intros (k1 & v1 & Hk1 & Htrue) (k0 & v0 & Hk0 & Hfalse).
    assert (Hempty : MongoProjection.is_empty (MongoProjection.InDict d) = false).
    { simpl. apply Nat.eqb_neq. intros Hz. apply map_size_empty_inv in Hz.
      subst d. by rewrite lookup_empty in Hk1. }
    rewrite Hempty. unfold py_sum. rewrite py_sum_from_bits by done. simpl.
    rewrite !bool_decide_eq_false_2; [done| |].
    + intros Hfull. assert (Hall : Forall (fun v => truthy v = true) (values d))
        by (apply ones_all; lia).
      rewrite Forall_forall in Hall. rewrite (Hall v0) in Hfalse by eauto. done.
    + intros Hzero. assert (Hall : Forall (fun v => truthy v = false) (values d))
        by (apply ones_zero; lia).
      rewrite Forall_forall in Hall. rewrite (Hall v1) in Htrue by eauto. done.
Qed.

(** * Further properties of the statements *)

(** ** Projection: parsing *)

Lemma dict_of_keys_lookup (v : pyval) names k :
  MongoProjection.dict_of_keys v names !! k = if decide (k ∈ names) then Some v else None.
Proof.
  unfold MongoProjection.dict_of_keys.
  induction names as [|k' names IH] using rev_ind.
  - cbn [foldl]. rewrite lookup_empty.
    case_decide as Hin; [by apply not_elem_of_nil in Hin | done].
  - rewrite foldl_app. cbn [foldl]. destruct (decide (k' = k)) as [->|Hk].
    + rewrite lookup_insert_eq. rewrite decide_True; [done|].
      apply elem_of_app. right. by apply list_elem_of_singleton.
    + rewrite lookup_insert_ne by done. rewrite IH.
      destruct (decide (k ∈ names)) as [Hin|Hout].
      * rewrite decide_True; [done|]. apply elem_of_app. by left.
      * rewrite decide_False; [done|]. rewrite elem_of_app, list_elem_of_singleton.
        intros [?|?]; [done|]. by subst.
Qed.

Lemma dict_of_keys_dom (v : pyval) names :
  dom (MongoProjection.dict_of_keys v names) = list_to_set names.
Proof.
  apply set_eq. intros k. rewrite elem_of_dom, dict_of_keys_lookup, elem_of_list_to_set.
  destruct (decide (k ∈ names)); split; done.
Qed.

(** X1: a string, and a list whose elements are all strings, is accepted by
    the projection parser (the keys it builds are strings, which hash). The
    canonical projection it gives is unmixed: every value is the integer of
    the mode; and the fields of the projection of a list are exactly the names
    of the list. *)
Theorem string_and_list_projections_unmixed projection :
  (∃ s, projection = MongoProjection.InStr s)
  ∨ (∃ names, projection = MongoProjection.InList names) →
  ∃ self,
    MongoProjection.init projection = Ok self
    ∧ map_Forall (fun _ v => v = PInt (Z.b2z (MongoProjection.inclusion_mode self)))
                 (MongoProjection.projection self)
    ∧ ∀ names, projection = MongoProjection.InList names →
               dom (MongoProjection.projection self) = list_to_set names.
Proof.
  assert (Hvalues : ∀ v names, map_Forall (fun _ x => x = v)
                                 (MongoProjection.dict_of_keys v names)).
  { intros v names k x. rewrite dict_of_keys_lookup. by case_decide; intros [= <-]. }
  unfold MongoProjection.init.
  intros [[s ->] | [names ->]].
  - destruct (MongoProjection.is_empty _);
      [eexists; split; [done|]; split; [apply map_Forall_empty | done]|].
    destruct s as [|c s]; [eexists; split; [done|]; split; [apply Hvalues | done]|].
    destruct (is_sign c); eexists; (split; [done|]); (split; [apply Hvalues | done]).
  - destruct names as [|name names].
    + eexists. split; [done|]. split; [apply map_Forall_empty|].
      intros names [= <-]. simpl. apply dom_empty_L.
    + eexists. split; [done|]. split; [apply Hvalues|].
      intros names' [= <-]. apply dict_of_keys_dom.
Qed.

Lemma string_and_list_projections_unmixed_witness :
  ∃ self,
    MongoProjection.init (MongoProjection.InList ["id"; "name"; "id"]) = Ok self
    ∧ map_Forall (fun _ v => v = PInt (Z.b2z (MongoProjection.inclusion_mode self)))
                 (MongoProjection.projection self)
    ∧ ∀ names, MongoProjection.InList ["id"; "name"; "id"] = MongoProjection.InList names →
               dom (MongoProjection.projection self) = list_to_set names.
Proof.
  apply string_and_list_projections_unmixed. right. by eexists.
Defined.

Lemma split_not_nil sep s : split sep s ≠ [].
Proof.
  destruct s as [|c s]; simpl; [done|].
  destruct (Ascii.eqb c sep); [done|]. by destruct (split sep s).
Qed.

Lemma split_concat names :
  names ≠ [] → Forall (fun name => free_of comma name = true) names →
  split comma (String.concat "," names) = names.
Proof.
  induction names as [|a names IH]; [done|]. intros _ Hfree.
  inversion Hfree as [|? ? Ha Hnames]; subst.
  destruct names as [|b names].
  - simpl. by apply split_free_of.
  - change (String.concat "," (a :: b :: names))
      with (a ++ String comma (String.concat "," (b :: names))).
    rewrite split_append by done. by rewrite IH.
Qed.

Lemma concat_split s : String.concat "," (split comma s) = s.
Proof.
  induction s as [|c s IH]; [done|]. simpl.
  pose proof (split_not_nil comma s) as Hne.
  destruct (Ascii.eqb c comma) eqn:Hc.
  - apply Ascii.eqb_eq in Hc as ->.
    destruct (split comma s) as [|tok toks]; [done|].
    change (String.concat "," ("" :: tok :: toks))
      with (String comma (String.concat "," (tok :: toks))).
    by rewrite IH.
  - destruct (split comma s) as [|tok toks]; [done|].
    rewrite <- IH. by destruct toks.
Qed.

Lemma split_free sep s : Forall (fun tok => free_of sep tok = true) (split sep s).
Proof.
  induction s as [|c s IH]; simpl; [by repeat constructor|].
  destruct (Ascii.eqb c sep) eqn:Hc; [by constructor|].
  destruct (split sep s) as [|tok toks].
  - constructor; [simpl; by rewrite Hc | constructor].
  - inversion IH; subst. constructor; [|done]. simpl. by rewrite Hc.
Qed.

Lemma unsigned_concat name names :
  unsigned name = true → unsigned (String.concat "," (name :: names)) = true.
Proof.
  intros Hname. destruct names as [|b names]; [done|].
  change (String.concat "," (name :: b :: names))
    with (name ++ String comma (String.concat "," (b :: names))).
  by destruct name.
Qed.

(** X2: for any number of field names that hold no comma, the first not
    starting with a sign, the comma-separated string and the list of the
    names parse to the same canonical projection. *)
Theorem projection_string_is_list name names :
  Forall (fun n => free_of comma n = true) (name :: names) →
  unsigned name = true →
  String.concat "," (name :: names) ≠ "" →
  MongoProjection.init (MongoProjection.InStr (String.concat "," (name :: names)))
  = MongoProjection.init (MongoProjection.InList (name :: names)).
Proof.
  intros Hfree Hsign Hne.
  rewrite init_unsigned_string; [|done|by apply unsigned_concat].
  by rewrite split_concat.
Qed.

Lemma projection_string_is_list_witness :
  MongoProjection.init (MongoProjection.InStr (String.concat "," ["id"; "name"; "age"]))
  = MongoProjection.init (MongoProjection.InList ["id"; "name"; "age"]).
Proof.
  apply projection_string_is_list; [by repeat constructor | reflexivity | done].
Defined.

Lemma py_sum_from_zeros acc (l : list pyval) :
  Forall (fun v => v = PInt 0) l → py_sum_from acc l = Ok acc.
Proof.
  revert acc. induction l as [|v l IH]; intros acc Hl; [done|].
  inversion Hl; subst. simpl. rewrite IH by done. f_equal. lia.
Qed.

Lemma py_any_zeros (l : list pyval) : Forall (fun v => v = PInt 0) l → py_any l = false.
Proof. induction 1 as [|v l -> _ IH]; [done|]. simpl. apply IH. Qed.

(** X3: the exclusion forms agree. For field names that hold no comma, the
    string [-a,b,...] and the object [{a: 0, b: 0, ...}] parse to the same
    canonical projection: exclusion mode, every name mapped to 0. *)
Theorem exclusion_forms_agree names :
  names ≠ [] → Forall (fun n => free_of comma n = true) names →
  let canon := {| MongoProjection.inclusion_mode := false;
                  MongoProjection.projection :=
                    MongoProjection.dict_of_keys (PInt 0) names |} in
  MongoProjection.init
    (MongoProjection.InStr (String minus_sign (String.concat "," names))) = Ok canon
  ∧ MongoProjection.init
      (MongoProjection.InDict (MongoProjection.dict_of_keys (PInt 0) names)) = Ok canon.
Proof.
  intros Hne Hfree canon. split.
  - unfold MongoProjection.init. simpl. by rewrite split_concat.
  - set (d := MongoProjection.dict_of_keys (PInt 0) names).
    assert (Hzeros : Forall (fun v => v = PInt 0) (values d)).
    { apply Forall_forall. intros v Hv. unfold values in Hv.
      apply list_elem_of_fmap in Hv as ([k v'] & -> & Hkv).
      apply elem_of_map_to_list in Hkv. unfold d in Hkv.
      rewrite dict_of_keys_lookup in Hkv. case_decide; [|done]. by injection Hkv as <-. }
    assert (Hsize : size d ≠ 0%nat).
    { intros Hz. apply map_size_empty_inv in Hz.
      destruct names as [|n names]; [done|].
      assert (Hn : d !! n = Some (PInt 0)).
      { unfold d. rewrite dict_of_keys_lookup. rewrite decide_True; [done|by left]. }
      by rewrite Hz, lookup_empty in Hn. }
    unfold MongoProjection.init.
    replace (MongoProjection.is_empty (MongoProjection.InDict d)) with false
      by (simpl; symmetry; by apply Nat.eqb_neq).
    unfold py_sum. rewrite py_sum_from_zeros by done. simpl.
    by rewrite py_any_zeros.
Qed.

Lemma exclusion_forms_agree_witness :
  MongoProjection.init (MongoProjection.InStr "-id,name")
  = MongoProjection.init
      (MongoProjection.InDict (MongoProjection.dict_of_keys (PInt 0) ["id"; "name"])).
Proof.
  destruct (exclusion_forms_agree ["id"; "name"]) as [Hstr Hdict];
    [done | by repeat constructor |].
  change "-id,name" with (String minus_sign (String.concat "," ["id"; "name"])).
  by rewrite Hstr, Hdict.
Defined.

(** ** Projection: compilation *)

Lemma Forall2_functional_elem_of {A B} (R : A → B → Prop) (l : list A) (ys : list B) :
  (∀ x y1 y2, R x y1 → R x y2 → y1 = y2) →
  Forall2 R l ys →
  ∀ y, y ∈ ys ↔ ∃ x, x ∈ l ∧ R x y.
Proof.
  intros Hfun HR y. split.
  - intros Hy. apply list_elem_of_lookup in Hy as [i Hi].
    destruct (Forall2_lookup_r _ _ _ _ _ HR Hi) as (x & Hx & HRx).
    exists x. split; [|done]. apply list_elem_of_lookup. by exists i.
  - intros (x & Hx & HRx). apply list_elem_of_lookup in Hx as [i Hi].
    destruct (Forall2_lookup_l _ _ _ _ _ HR Hi) as (y' & Hy' & HRy').
    rewrite (Hfun x y y' HRx HRy'). apply list_elem_of_lookup. by exists i.
Qed.

(** X4: in exclusion mode, when every listed field is a column, the plan
    loads exactly the columns of the schema whose name is not listed. *)
Theorem exclusion_plan_is_the_rest (columns : gmap string Column)
    (projection : gmap string pyval) :
  dom projection ⊆ dom columns →
  ∃ plan,
    MongoProjection.options columns projection false = Ok plan
    ∧ ∀ o, o ∈ plan ↔ ∃ name col,
        columns !! name = Some col ∧ projection !! name = None ∧ o = load_only col.
Proof.
  intros Hsub. unfold MongoProjection.options, MongoProjection.columns.
  rewrite bool_decide_eq_true_2 by done. simpl. eexists. split; [done|].
  intros o. rewrite list_elem_of_In, in_map_iff. setoid_rewrite <- list_elem_of_In.
  setoid_rewrite list_elem_of_fmap. split.
  - intros (col & <- & [name col'] & -> & Hin).
    apply list_elem_of_filter in Hin as [Hout Hin]. apply elem_of_map_to_list in Hin.
    exists name, col'. split; [done|]. split; [|done]. by apply not_elem_of_dom.
  - intros (name & col & Hcol & Hout & ->). exists col. split; [done|].
    exists (name, col). split; [done|]. rewrite list_elem_of_filter.
    split; [by apply not_elem_of_dom | by apply elem_of_map_to_list].
Qed.

Lemma exclusion_plan_is_the_rest_witness :
  ∃ plan,
    MongoProjection.options (model_columns example_model)
      (MongoProjection.dict_of_keys (PInt 0) ["id"; "tags"]) false = Ok plan
    ∧ ∀ o, o ∈ plan ↔ ∃ name col,
        model_columns example_model !! name = Some col
        ∧ MongoProjection.dict_of_keys (PInt 0) ["id"; "tags"] !! name = None
        ∧ o = load_only col.
Proof.
  apply exclusion_plan_is_the_rest.
  apply (bool_decide_unpack _). vm_compute. exact I.
Defined.

(** X5: in inclusion mode, when every listed field is a column, the plan
    has one load-only directive per listed field, and loads exactly the
    columns the listed fields name. *)
Theorem inclusion_plan_is_the_listed (columns : gmap string Column)
    (projection : gmap string pyval) :
  dom projection ⊆ dom columns →
  ∃ plan,
    MongoProjection.options columns projection true = Ok plan
    ∧ length plan = size projection
    ∧ ∀ o, o ∈ plan ↔ ∃ name col,
        is_Some (projection !! name) ∧ columns !! name = Some col ∧ o = load_only col.
Proof.
  intros Hsub. unfold MongoProjection.options, MongoProjection.columns.
  rewrite bool_decide_eq_true_2 by done. simpl.
  destruct (traverse_Forall2
              (fun '(name, _) => getitem columns name)
              (fun (entry : string * pyval) col => columns !! entry.1 = Some col)
              (items projection)) as (cols & Hcols & HR).
  { apply Forall_forall. intros [name inc] Hin. apply elem_of_map_to_list in Hin.
    assert (Hname : name ∈ dom columns) by (apply Hsub, elem_of_dom; by eexists).
    apply elem_of_dom in Hname as [col Hcol].
    exists col. unfold getitem. by rewrite Hcol. }
  rewrite Hcols. simpl. eexists. split; [done|]. split.
  - rewrite length_map. rewrite <- (Forall2_length _ _ _ HR).
    apply length_map_to_list.
  - intros o. rewrite list_elem_of_In, in_map_iff. setoid_rewrite <- list_elem_of_In.
    assert (Hfun : ∀ (x : string * pyval) y1 y2,
               columns !! x.1 = Some y1 → columns !! x.1 = Some y2 → y1 = y2)
      by (intros; congruence).
    setoid_rewrite (Forall2_functional_elem_of _ _ _ Hfun HR). split.
    + intros (col & <- & [name inc] & Hin & Hcol). apply elem_of_map_to_list in Hin.
      exists name, col. split; [by eexists|]. done.
    + intros (name & col & [inc Hinc] & Hcol & ->). exists col. split; [done|].
      exists (name, inc). split; [by apply elem_of_map_to_list | done].
Qed.

Lemma inclusion_plan_is_the_listed_witness :
  ∃ plan,
    MongoProjection.options (model_columns example_model)
      (MongoProjection.dict_of_keys (PInt 1) ["name"; "age"]) true = Ok plan
    ∧ length plan = size (MongoProjection.dict_of_keys (PInt 1) ["name"; "age"])
    ∧ ∀ o, o ∈ plan ↔ ∃ name col,
        is_Some (MongoProjection.dict_of_keys (PInt 1) ["name"; "age"] !! name)
        ∧ model_columns example_model !! name = Some col ∧ o = load_only col.
Proof.
  apply inclusion_plan_is_the_listed.
  apply (bool_decide_unpack _). vm_compute. exact I.
Defined.

(** X6: a projection that lists a field that is no column of the schema is
    refused in both modes, with the assertion on the column names. *)
Theorem projection_unknown_column (columns : gmap string Column)
    (projection : gmap string pyval) inclusion_mode name :
  is_Some (projection !! name) → columns !! name = None →
  MongoProjection.options columns projection inclusion_mode
  = Raise (AssertionError "Invalid column specified in projection").
Proof.
  intros Hname Hcol. unfold MongoProjection.options, MongoProjection.columns.
  rewrite bool_decide_eq_false_2; [done|].
  intros Hsub. apply elem_of_dom in Hname. apply Hsub, elem_of_dom in Hname as [col Hname].
  congruence.
Qed.

Lemma projection_unknown_column_witness :
  MongoProjection.options (model_columns example_model) {[ "email" := PInt 1 ]} true
  = Raise (AssertionError "Invalid column specified in projection").
Proof.
  apply (projection_unknown_column _ _ _ "email"); [by eexists | reflexivity].
Defined.

(** ** Sort and group: parsing *)

Lemma last_char_snoc s c : last_char (s ++ String c "") = Some c.
Proof.
  induction s as [|c' s IH]; [done|].
  change (String c' s ++ String c "") with (String c' (s ++ String c "")).
  cbn [last_char]. rewrite IH. by destruct s.
Qed.

Lemma drop_last_snoc s c : drop_last (s ++ String c "") = s.
Proof.
  induction s as [|c' s IH]; [done|].
  change (String c' s ++ String c "") with (String c' (s ++ String c "")).
  cbn [drop_last]. rewrite IH. by destruct s.
Qed.

Lemma last_char_is_Some c s : is_Some (last_char (String c s)).
Proof.
  revert c. induction s as [|c' s IH]; intros c; [by eexists|]. apply (IH c').
Qed.

Lemma token_nonempty t : t ≠ "" → ∃ entry, MongoSort.token t = Ok entry.
Proof.
  destruct t as [|c t]; [done|]. intros _. unfold MongoSort.token.
  destruct (last_char_is_Some c t) as [c' ->]. destruct (is_sign c'); by eexists.
Qed.

(** X7: the sign at the end of a sort token. Whatever the name, [name-] is
    the name with direction -1 and [name+] the name with direction +1; a
    token that does not end in a sign is the name itself with direction +1,
    and the empty token is an index error. *)
Theorem sort_token_sign name :
  MongoSort.token (name ++ "-") = Ok (name, PInt (-1))
  ∧ MongoSort.token (name ++ "+") = Ok (name, PInt 1)
  ∧ (∀ c, last_char name = Some c → is_sign c = false →
       MongoSort.token name = Ok (name, PInt 1))
  ∧ (MongoSort.token name = Raise (IndexError "string index out of range") ↔ name = "").
Proof.
  unfold MongoSort.token. split; [|split; [|split]].
  - change (name ++ "-") with (name ++ String minus_sign "").
    by rewrite last_char_snoc, drop_last_snoc.
  - change (name ++ "+") with (name ++ String plus_sign "").
    by rewrite last_char_snoc, drop_last_snoc.
  - intros c -> Hc. by rewrite Hc.
  - split.
    + destruct name as [|c name]; [done|].
      destruct (last_char_is_Some c name) as [c' ->]. by destruct (is_sign c').
    + by intros ->.
Qed.

Lemma sort_token_sign_witness :
  MongoSort.token "age" = Ok ("age", PInt 1).
Proof.
  destruct (sort_token_sign "age") as (_ & _ & Hplain & _).
  apply (Hplain "e"%char); reflexivity.
Defined.

Lemma odict_set_elem_of k v (d : list (string * pyval)) entry :
  entry ∈ MongoSort.odict_set k v d → entry = (k, v) ∨ entry ∈ d.
Proof.
  induction d as [|[k' v'] d IH]; simpl.
  - intros Hin. apply list_elem_of_singleton in Hin. by left.
  - destruct (String.eqb k' k).
    + intros Hin. apply elem_of_cons in Hin as [->|Hin]; [by left|].
      right. by right.
    + intros Hin. apply elem_of_cons in Hin as [->|Hin]; [right; by left|].
      destruct (IH Hin) as [->|Hd]; [by left|]. right. by right.
Qed.

Lemma odict_set_keys k v (d : list (string * pyval)) x :
  x ∈ (MongoSort.odict_set k v d).*1 ↔ x = k ∨ x ∈ d.*1.
Proof.
  induction d as [|[k' v'] d IH]; simpl.
  - rewrite list_elem_of_singleton. split; [by left|]. intros [?|Hnil]; [done|].
    by apply not_elem_of_nil in Hnil.
  - destruct (String.eqb k' k) eqn:Hk.
    + apply String.eqb_eq in Hk as ->. simpl. rewrite !elem_of_cons. tauto.
    + simpl. rewrite !elem_of_cons, IH. tauto.
Qed.

Lemma odict_set_NoDup k v (d : list (string * pyval)) :
  NoDup (d.*1) → NoDup ((MongoSort.odict_set k v d).*1).
Proof.
  induction d as [|[k' v'] d IH]; simpl.
  - intros _. apply NoDup_singleton.
  - intros Hd. apply NoDup_cons in Hd as [Hk' Hd].
    destruct (String.eqb k' k) eqn:Hk.
    + apply String.eqb_eq in Hk as ->. simpl. by apply NoDup_cons.
    + simpl. apply NoDup_cons. split; [|by apply IH].
      rewrite odict_set_keys. apply String.eqb_neq in Hk. intros [?|?]; by subst.
Qed.

Lemma odict_set_fresh k v (d : list (string * pyval)) :
  k ∉ d.*1 → MongoSort.odict_set k v d = (d ++ [(k, v)])%list.
Proof.
  induction d as [|[k' v'] d IH]; simpl; [done|].
  intros Hk. apply not_elem_of_cons in Hk as [Hne Hk].
  rewrite (proj2 (String.eqb_neq k' k)) by done. by rewrite IH.
Qed.

Lemma OrderedDict_snoc pairs k v :
  MongoSort.OrderedDict (pairs ++ [(k, v)])%list
  = MongoSort.odict_set k v (MongoSort.OrderedDict pairs).
Proof. unfold MongoSort.OrderedDict. by rewrite foldl_app. Qed.

Lemma OrderedDict_NoDup pairs : NoDup ((MongoSort.OrderedDict pairs).*1).
Proof.
  induction pairs as [|[k v] pairs IH] using rev_ind; [apply NoDup_nil_2|].
  rewrite OrderedDict_snoc. by apply odict_set_NoDup.
Qed.

Lemma OrderedDict_elem_of pairs entry :
  entry ∈ MongoSort.OrderedDict pairs → entry ∈ pairs.
Proof.
  induction pairs as [|[k v] pairs IH] using rev_ind; [done|].
  rewrite OrderedDict_snoc. intros Hin. apply elem_of_app.
  destruct (odict_set_elem_of _ _ _ _ Hin) as [->|Hd]; [right; by left|].
  left. by apply IH.
Qed.

(** [OrderedDict] of pairs with distinct keys is the list of the pairs. *)
Lemma OrderedDict_distinct pairs :
  NoDup (pairs.*1) → MongoSort.OrderedDict pairs = pairs.
Proof.
  induction pairs as [|[k v] pairs IH] using rev_ind; [done|].
  rewrite fmap_app. intros Hnd. apply NoDup_app in Hnd as (Hpairs & Hk & _).
  rewrite OrderedDict_snoc, IH by done. apply odict_set_fresh.
  intros Hin. apply (Hk k Hin). by left.
Qed.

Lemma all_strings_fmap tokens : MongoSort.all_strings (PStr <$> tokens) = Some tokens.
Proof.
  induction tokens as [|t tokens IH]; [done|].
  change (PStr <$> t :: tokens) with (PStr t :: (PStr <$> tokens)).
  cbn [MongoSort.all_strings]. by rewrite IH.
Qed.

(** The parser on a list of strings, step by step. *)
Lemma init_tokens cls_name tokens :
  MongoSort.init cls_name (MongoSort.InValue (PList (PStr <$> tokens)))
  = pairs ← traverse MongoSort.token tokens;
    ok ← MongoSort.all_directions (MongoSort.OrderedDict pairs);
    _ ← py_assert ok (cls_name ++ " direction can be either +1 or -1");
    Ok (MongoSort.OrderedDict pairs).
Proof.
  unfold MongoSort.init. destruct tokens as [|t tokens]; [done|].
  cbn [MongoSort.is_empty truthy length fmap list_fmap Nat.eqb negb].
  replace (MongoSort.all_strings (PStr t :: (PStr <$> tokens))) with (Some (t :: tokens))
    by (symmetry; apply (all_strings_fmap (t :: tokens))).
  by destruct (traverse MongoSort.token (t :: tokens)).
Qed.

(** The parser on a string that is not empty is the parser on the list of
    its comma-separated tokens. *)
Lemma init_string cls_name s :
  s ≠ "" →
  MongoSort.init cls_name (MongoSort.InValue (PStr s))
  = MongoSort.init cls_name (MongoSort.InValue (PList (PStr <$> split comma s))).
Proof.
  intros Hs. pose proof (split_not_nil comma s) as Hne.
  unfold MongoSort.init. destruct s as [|c s]; [done|].
  cbn [MongoSort.is_empty truthy String.eqb negb].
  destruct (split comma (String c s)) as [|t tokens]; done.
Qed.

Lemma token_direction t k v :
  MongoSort.token t = Ok (k, v) → v = PInt 1 ∨ v = PInt (-1).
Proof.
  unfold MongoSort.token. destruct (last_char t) as [c|]; [|done].
  destruct (is_sign c); [|intros [= _ <-]; by left].
  destruct (Ascii.eqb c minus_sign); intros [= _ <-]; [by right | by left].
Qed.

Lemma traverse_elem_of {A B} (f : A → result B) (l : list A) (ys : list B) :
  traverse f l = Ok ys →
  (∀ y, y ∈ ys → ∃ x, x ∈ l ∧ f x = Ok y) ∧ (∀ x, x ∈ l → ∃ y, y ∈ ys ∧ f x = Ok y).
Proof.
  revert ys. induction l as [|x l IH]; intros ys; simpl.
  - intros [= <-]. split; intros ? Hin; by apply not_elem_of_nil in Hin.
  - destruct (f x) as [y|e] eqn:Hx; simpl; [|done].
    destruct (traverse f l) as [ys'|e]; simpl; [|done]. intros [= <-].
    destruct (IH ys' eq_refl) as [IH1 IH2]. split.
    + intros y' Hin. apply elem_of_cons in Hin as [->|Hin].
      * exists x. split; [by left | done].
      * destruct (IH1 y' Hin) as (x' & Hx' & Hfx'). exists x'. split; [by right | done].
    + intros x' Hin. apply elem_of_cons in Hin as [->|Hin].
      * exists y. split; [by left | done].
      * destruct (IH2 x' Hin) as (y' & Hy' & Hfx'). exists y'. split; [by right | done].
Qed.

Lemma traverse_token_total tokens :
  Forall (fun t => t ≠ "") tokens → ∃ pairs, traverse MongoSort.token tokens = Ok pairs.
Proof.
  induction 1 as [|t tokens Ht _ [pairs IH]]; [by eexists|].
  simpl. rewrite IH. destruct (token_nonempty t Ht) as [entry ->]. by eexists.
Qed.

Lemma traverse_token_empty tokens :
  "" ∈ tokens →
  traverse MongoSort.token tokens = Raise (IndexError "string index out of range").
Proof.
  induction tokens as [|t tokens IH]; intros Hin; [by apply not_elem_of_nil in Hin|].
  simpl. destruct (decide (t = "")) as [->|Ht]; [done|].
  apply elem_of_cons in Hin as [?|Hin]; [done|].
  rewrite (IH Hin). by destruct (token_nonempty t Ht) as [entry ->].
Qed.

Lemma all_directions_signs (d : list (string * pyval)) :
  Forall (fun entry => entry.2 = PInt 1 ∨ entry.2 = PInt (-1)) d →
  MongoSort.all_directions d = Ok true.
Proof.
  induction 1 as [|[k v] d Hv _ IH]; [done|].
  simpl in *. by destruct Hv as [-> | ->].
Qed.

Lemma OrderedDict_tokens tokens pairs :
  traverse MongoSort.token tokens = Ok pairs →
  MongoSort.all_directions (MongoSort.OrderedDict pairs) = Ok true.
Proof.
  intros Hpairs. apply all_directions_signs, Forall_forall. intros [k v] Hin.
  apply OrderedDict_elem_of in Hin.
  destruct (traverse_elem_of _ _ _ Hpairs) as [Hfrom _].
  destruct (Hfrom _ Hin) as (t & _ & Ht). simpl. by apply token_direction in Ht.
Qed.

(** X8: on a list of strings, and on a string that is not empty (read as
    the list of its comma-separated tokens), the sort parser succeeds when no
    token is empty, and raises an index error when one is. *)
Theorem sort_tokens_total cls_name sort_spec tokens :
  sort_spec = MongoSort.InValue (PList (PStr <$> tokens))
  ∨ (∃ s, s ≠ "" ∧ sort_spec = MongoSort.InValue (PStr s) ∧ tokens = split comma s) →
  (Forall (fun t => t ≠ "") tokens → ∃ sort, MongoSort.init cls_name sort_spec = Ok sort)
  ∧ ("" ∈ tokens →
     MongoSort.init cls_name sort_spec = Raise (IndexError "string index out of range")).
Proof.
  intros Hspec.
  assert (Hinit : MongoSort.init cls_name sort_spec
                  = MongoSort.init cls_name (MongoSort.InValue (PList (PStr <$> tokens)))).
  { destruct Hspec as [-> | (s & Hs & -> & ->)]; [done | by apply init_string]. }
  rewrite Hinit, init_tokens. split.
  - intros Hne. destruct (traverse_token_total _ Hne) as [pairs Hpairs].
    rewrite Hpairs. simpl. rewrite (OrderedDict_tokens _ _ Hpairs). by eexists.
  - intros Hempty. by rewrite traverse_token_empty.
Qed.

Lemma sort_tokens_total_witness :
  ∃ sort, MongoSort.init "MongoSort" (MongoSort.InValue (PStr "age-,name")) = Ok sort.
Proof.
  apply (sort_tokens_total "MongoSort" _ ["age-"; "name"]).
  - right. exists "age-,name". by repeat split.
  - by repeat constructor.
Defined.

(** X9: a sort parsed from a string or a list of strings has no field
    twice, every entry of it is the reading of one of the tokens, and the
    field of every token is in it. *)
Theorem sort_tokens_result cls_name sort_spec tokens (sort : list (string * pyval)) :
  sort_spec = MongoSort.InValue (PList (PStr <$> tokens))
  ∨ (∃ s, s ≠ "" ∧ sort_spec = MongoSort.InValue (PStr s) ∧ tokens = split comma s) →
  MongoSort.init cls_name sort_spec = Ok sort →
  NoDup (sort.*1)
  ∧ (∀ entry, entry ∈ sort → ∃ t, t ∈ tokens ∧ MongoSort.token t = Ok entry)
  ∧ (∀ t, t ∈ tokens → ∃ k v, MongoSort.token t = Ok (k, v) ∧ k ∈ sort.*1).
Proof.
  intros Hspec.
  assert (Hinit : MongoSort.init cls_name sort_spec
                  = MongoSort.init cls_name (MongoSort.InValue (PList (PStr <$> tokens)))).
  { destruct Hspec as [-> | (s & Hs & -> & ->)]; [done | by apply init_string]. }
  rewrite Hinit, init_tokens.
  destruct (traverse MongoSort.token tokens) as [pairs|e] eqn:Hpairs; simpl; [|done].
  rewrite (OrderedDict_tokens _ _ Hpairs). simpl. intros [= <-].
  destruct (traverse_elem_of _ _ _ Hpairs) as [Hfrom Hto].
  split; [apply OrderedDict_NoDup|]. split.
  - intros entry Hin. by apply Hfrom, OrderedDict_elem_of.
  - intros t Ht. destruct (Hto t Ht) as ([k v] & Hin & Htok). exists k, v.
    split; [done|]. clear -Hin. revert Hin.
    induction pairs as [|[k' v'] pairs IH] using rev_ind; intros Hin.
    { by apply not_elem_of_nil in Hin. }
    rewrite OrderedDict_snoc, odict_set_keys. apply elem_of_app in Hin as [Hin|Hin].
    + right. by apply IH.
    + apply list_elem_of_singleton in Hin as [= -> ->]. by left.
Qed.

Lemma sort_tokens_result_witness :
  NoDup ((([("age", PInt (-1)); ("name", PInt 1)]) : list (string * pyval)).*1).
Proof.
  apply (sort_tokens_result "MongoSort" (MongoSort.InValue (PStr "age,name,age-"))
           ["age"; "name"; "age-"]).
  - right. exists "age,name,age-". by repeat split.
  - vm_compute. reflexivity.
Defined.

(** X10: the sort parser preserves order. When the tokens name pairwise
    distinct fields, the parsed sort is the list of the readings of the
    tokens, in the order of the tokens. *)
Theorem sort_order_preserved cls_name tokens (pairs : list (string * pyval)) :
  traverse MongoSort.token tokens = Ok pairs →
  NoDup (pairs.*1) →
  MongoSort.init cls_name (MongoSort.InValue (PList (PStr <$> tokens))) = Ok pairs.
Proof.
  intros Hpairs Hnd. rewrite init_tokens, Hpairs. simpl.
  rewrite (OrderedDict_tokens _ _ Hpairs). simpl.
  by rewrite OrderedDict_distinct.
Qed.

Lemma sort_order_preserved_witness :
  MongoSort.init "MongoSort" (MongoSort.InValue (PList (PStr <$> ["name-"; "age"; "id+"])))
  = Ok [("name", PInt (-1)); ("age", PInt 1); ("id", PInt 1)].
Proof.
  apply sort_order_preserved; [reflexivity|].
  apply (bool_decide_unpack _). vm_compute. exact I.
Defined.

Lemma all_directions_accept (d : list (string * pyval)) :
  Forall (fun entry => py_eq_int entry.2 (-1) = true ∨ py_eq_int entry.2 1 = true) d →
  MongoSort.all_directions d = Ok true.
Proof.
  induction 1 as [|[k v] d Hv _ IH]; [done|]. simpl in *.
  assert (Hdir : MongoSort.is_direction v = Ok true).
  { destruct v; simpl in *; try (by destruct Hv);
      f_equal; apply orb_true_iff; done. }
  by rewrite Hdir.
Qed.

Lemma all_directions_refuse (d : list (string * pyval)) :
  Forall (fun entry => isinstance_list entry.2 = false ∧ isinstance_dict entry.2 = false) d →
  Exists (fun entry => py_eq_int entry.2 (-1) = false ∧ py_eq_int entry.2 1 = false) d →
  MongoSort.all_directions d = Ok false.
Proof.
  induction 1 as [|[k v] d [Hl Hd] _ IH]; intros Hex; [by apply Exists_nil in Hex|].
  simpl in *.
  assert (Hdir : MongoSort.is_direction v = Ok (py_eq_int v (-1) || py_eq_int v 1))
    by (by destruct v).
  rewrite Hdir. simpl.
  destruct (py_eq_int v (-1) || py_eq_int v 1) eqn:Hv; [|done].
  apply IH. apply Exists_cons in Hex as [[H1 H2]|Hex]; [|done].
  simpl in *. by rewrite H1, H2 in Hv.
Qed.

(** X11: an [OrderedDict] is taken as it is when every direction equals +1
    or -1; when the directions are hashable values and one of them is neither,
    the parser raises the assertion on directions, under the name of the
    class. *)
Theorem ordered_dict_directions cls_name (d : list (string * pyval)) :
  (Forall (fun entry => py_eq_int entry.2 (-1) = true ∨ py_eq_int entry.2 1 = true) d →
   MongoSort.init cls_name (MongoSort.InOrderedDict d) = Ok d)
  ∧ (Forall (fun entry => isinstance_list entry.2 = false ∧ isinstance_dict entry.2 = false) d →
     Exists (fun entry => py_eq_int entry.2 (-1) = false ∧ py_eq_int entry.2 1 = false) d →
     MongoSort.init cls_name (MongoSort.InOrderedDict d)
     = Raise (AssertionError (cls_name ++ " direction can be either +1 or -1"))).
Proof.
  unfold MongoSort.init. split.
  - intros Hd. destruct d as [|entry d]; [done|].
    cbn [MongoSort.is_empty length Nat.eqb]. cbn [mbind result_bind].
    by rewrite all_directions_accept.
  - intros Hhash Hex. destruct d as [|entry d]; [by apply Exists_nil in Hex|].
    cbn [MongoSort.is_empty length Nat.eqb]. cbn [mbind result_bind].
    by rewrite all_directions_refuse.
Qed.

Lemma ordered_dict_directions_witness :
  MongoSort.init "MongoSort" (MongoSort.InOrderedDict [("age", PInt 1); ("name", PInt 2)])
  = Raise (AssertionError ("MongoSort" ++ " direction can be either +1 or -1")).
Proof.
  apply ordered_dict_directions.
  - by repeat constructor.
  - apply Exists_cons_tl, Exists_cons_hd. by split.
Defined.

Lemma all_strings_None (l : list pyval) :
  Exists (fun v => isinstance_basestring v = false) l → MongoSort.all_strings l = None.
Proof.
  induction 1 as [v l Hv | v l _ IH].
  - by destruct v.
  - destruct v; try done. simpl. by rewrite IH.
Qed.

(** X12: a value that Python takes as true and that is neither a string nor
    a list of strings (a number, a plain dict, a list with an element that is
    not a string) is refused with the assertion on the shape, under the name
    of the class. *)
Theorem sort_shape_refused cls_name v :
  truthy v = true →
  isinstance_basestring v = false →
  (∀ l, v = PList l → Exists (fun x => isinstance_basestring x = false) l) →
  MongoSort.init cls_name (MongoSort.InValue v)
  = Raise (AssertionError
             (cls_name ++ " must be one of: None, string, list of strings, OrderedDict")).
Proof.
  intros Htrue Hstr Hlist. unfold MongoSort.init.
  cbn [MongoSort.is_empty]. rewrite Htrue. cbn [negb].
  destruct v as [| | | |l|]; try done.
  by rewrite (all_strings_None l (Hlist l eq_refl)).
Qed.

Lemma sort_shape_refused_witness :
  MongoSort.init "MongoGroup" (MongoSort.InValue (PList [PStr "age"; PInt 1]))
  = Raise (AssertionError
             ("MongoGroup" ++ " must be one of: None, string, list of strings, OrderedDict")).
Proof.
  apply sort_shape_refused; [reflexivity | reflexivity |].
  intros l [= <-]. apply Exists_cons_tl, Exists_cons_hd. reflexivity.
Defined.

(** X13: a sort or a group over a field that is no column of the schema is
    refused with the assertion on the column names, under the name of the
    class that compiles it. *)
Theorem sort_unknown_column (sort : list (string * pyval)) model name d :
  (name, d) ∈ sort → model_columns model !! name = None →
  MongoSort.call "MongoSort" sort model
  = Raise (AssertionError "Invalid column specified in MongoSort")
  ∧ MongoGroup.call sort model
    = Raise (AssertionError "Invalid column specified in MongoGroup").
Proof.
  intros Hin Hcol.
  assert (Hsub : ¬ list_to_set (sort.*1) ⊆@{gset string} dom (model_columns model)).
  { intros Hsub. assert (Hname : name ∈ dom (model_columns model)).
    { apply Hsub, elem_of_list_to_set, list_elem_of_fmap. by exists (name, d). }
    apply elem_of_dom in Hname as [col Hname]. congruence. }
  unfold MongoSort.call, MongoGroup.call, MongoSort.columns.
  by rewrite !(bool_decide_eq_false_2 _ Hsub).
Qed.

Lemma sort_unknown_column_witness :
  MongoSort.call "MongoSort" [("email", PInt 1)] example_model
  = Raise (AssertionError "Invalid column specified in MongoSort").
Proof.
  apply (sort_unknown_column _ _ "email" (PInt 1)); [by left | reflexivity].
Defined.

Lemma odict_set_elem_of_iff k v k' v' (d : list (string * pyval)) :
  NoDup (d.*1) →
  (k, v) ∈ MongoSort.odict_set k' v' d ↔ (k = k' ∧ v = v') ∨ (k ≠ k' ∧ (k, v) ∈ d).
Proof.
  induction d as [|[k0 v0] d IH]; simpl; intros Hnd.
  - rewrite list_elem_of_singleton. split.
    + intros [= -> ->]. by left.
    + intros [[-> ->]|[_ Hnil]]; [done|]. by apply not_elem_of_nil in Hnil.
  - apply NoDup_cons in Hnd as [Hk0 Hnd].
    destruct (String.eqb k0 k') eqn:Hk.
    + apply String.eqb_eq in Hk as ->. rewrite !elem_of_cons. split.
      * intros [[= -> ->]|Hin]; [by left|]. right.
        assert (k ≠ k'); [|by auto].
        intros ->. apply Hk0, list_elem_of_fmap. by exists (k', v).
      * intros [[-> ->]|[Hne [[= -> ->]|Hin]]]; [by left|done|by right].
    + apply String.eqb_neq in Hk. rewrite !elem_of_cons, (IH Hnd). split.
      * intros [[= -> ->]|[[-> ->]|[Hne Hin]]]; [right|left|right]; auto.
      * intros [[-> ->]|[Hne [[= -> ->]|Hin]]]; auto.
Qed.

(** X14: when a field is given more than once, the direction given last
    wins. The parsed sort holds a field with a direction exactly when that is
    the reading of the last token that names the field. *)
Theorem sort_last_direction_wins cls_name tokens (pairs : list (string * pyval)) :
  traverse MongoSort.token tokens = Ok pairs →
  ∃ sort,
    MongoSort.init cls_name (MongoSort.InValue (PList (PStr <$> tokens))) = Ok sort
    ∧ ∀ k v, (k, v) ∈ sort ↔
        ∃ before after, pairs = (before ++ (k, v) :: after)%list ∧ k ∉ after.*1.
Proof.
  intros Hpairs. exists (MongoSort.OrderedDict pairs). split.
  { rewrite init_tokens, Hpairs. simpl. by rewrite (OrderedDict_tokens _ _ Hpairs). }
  clear. intros k v.
  induction pairs as [|[k' v'] pairs IH] using rev_ind.
  - split; [intros Hin; by apply not_elem_of_nil in Hin|].
    intros (before & after & Heq & _). by destruct before.
  - rewrite OrderedDict_snoc, odict_set_elem_of_iff by apply OrderedDict_NoDup.
    rewrite IH. split.
    + intros [[-> ->]|(Hne & before & after & -> & Hk)].
      * exists pairs, []. split; [done|]. apply not_elem_of_nil.
      * exists before, (after ++ [(k', v')])%list. split; [by rewrite <- app_assoc|].
        rewrite fmap_app. rewrite not_elem_of_app. split; [done|].
        simpl. by rewrite list_elem_of_singleton.
    + intros (before & after & Heq & Hk).
      destruct after as [|entry after _] using rev_ind.
      * apply app_inj_tail in Heq as [_ [= <- <-]]. by left.
      * rewrite app_comm_cons, app_assoc in Heq.
        apply app_inj_tail in Heq as [-> <-].
        rewrite fmap_app, not_elem_of_app in Hk. destruct Hk as [Hafter Hk'].
        simpl in Hk'. rewrite list_elem_of_singleton in Hk'.
        right. split; [done|]. by exists before, after.
Qed.

Lemma sort_last_direction_wins_witness :
  ∃ sort,
    MongoSort.init "MongoSort" (MongoSort.InValue (PList (PStr <$> ["age"; "name"; "age-"])))
    = Ok sort
    ∧ ∀ k v, (k, v) ∈ sort ↔
        ∃ before after,
          [("age", PInt 1); ("name", PInt 1); ("age", PInt (-1))]
          = (before ++ (k, v) :: after)%list ∧ k ∉ after.*1.
Proof.
  apply sort_last_direction_wins. reflexivity.
Defined.

(** ** Criteria: the loop, entry by entry *)

Lemma result_bind_ext {A B} (m1 m2 : result A) (f1 f2 : A → result B) :
  m1 = m2 → (∀ a, f1 a = f2 a) → m1 ≫= f1 = m2 ≫= f2.
Proof. intros -> Hf. destruct m2; simpl; [apply Hf | done]. Qed.

Lemma statetement_entries (columns : gmap string Column) entries :
  MongoCriteria.statetement columns (PDict entries)
  = _ ← py_assert
          (bool_decide (list_to_set (entries.*1) ∖ MongoCriteria.boolean_keys
                        ⊆@{gset string} dom columns))
          "Invalid column specified in Criteria";
    conditions ← criteria_conditions columns entries;
    Ok (conjunction conditions).
Proof.
  cbn [MongoCriteria.statetement].
  apply result_bind_ext; [reflexivity|]. intros _.
  apply result_bind_ext; [|intros [|c cs]; reflexivity].
  induction entries as [|[col_name criteria] es IH]; [done|].
  cbn [criteria_conditions].
  apply result_bind_ext.
  - unfold entry_conditions.
    destruct (MongoCriteria.is_boolean_list_key col_name); [|done].
    destruct criteria as [| | | |[|s subcriteria]|]; try done.
    apply result_bind_ext; [|done]. cbn [traverse].
    apply result_bind_ext; [done|]. intros e.
    apply result_bind_ext; [|done]. clear.
    induction subcriteria as [|x l IHl]; [reflexivity|]. simpl. by rewrite IHl.
  - intros appended. by apply result_bind_ext.
Qed.

Lemma criteria_conditions_app (columns : gmap string Column) pre post :
  criteria_conditions columns (pre ++ post)
  = before ← criteria_conditions columns pre;
    after ← criteria_conditions columns post;
    Ok (before ++ after)%list.
Proof.
  induction pre as [|[col_name criteria] pre IH]; simpl.
  - by destruct (criteria_conditions columns post).
  - destruct (entry_conditions columns col_name criteria) as [appended|e]; simpl; [|done].
    rewrite IH. destruct (criteria_conditions columns pre) as [before|e]; simpl; [|done].
    destruct (criteria_conditions columns post) as [after|e]; simpl; [|done].
    by rewrite app_assoc.
Qed.

Lemma boolean_list_key_is_boolean op :
  MongoCriteria.is_boolean_list_key op = true → op ∈ MongoCriteria.boolean_keys.
Proof.
  unfold MongoCriteria.is_boolean_list_key, MongoCriteria.boolean_keys.
  rewrite !orb_true_iff, !String.eqb_eq, !elem_of_union, !elem_of_singleton. tauto.
Qed.

(** Replacing the criteria of one entry leaves the assertion on the keys as
    it is. *)
Lemma criteria_keys_replace (pre post : list (string * pyval)) name c1 c2 :
  ((pre ++ (name, c1) :: post)%list).*1 = ((pre ++ (name, c2) :: post)%list).*1.
Proof. by rewrite !fmap_app. Qed.

Lemma criteria_keys_boolean (pre post : list (string * pyval)) op c :
  op ∈ MongoCriteria.boolean_keys →
  list_to_set (((pre ++ (op, c) :: post)%list).*1) ∖ MongoCriteria.boolean_keys
  =@{gset string} list_to_set (((pre ++ post)%list).*1) ∖ MongoCriteria.boolean_keys.
Proof.
  intros Hop. apply set_eq. intros k.
  rewrite !elem_of_difference, !elem_of_list_to_set, !fmap_app, fmap_cons, !elem_of_app,
    elem_of_cons.
  simpl. split; [|tauto]. intros [[Hk|[->|Hk]] Hout]; tauto.
Qed.

(** X15: nothing to filter on. A criteria that Python takes as false
    ([None], the empty dict) compiles to the constant [True], and an empty
    [$or], [$and] or [$nor] list contributes nothing: the criteria compiles as
    it does without the entry. *)
Theorem empty_contributes_nothing :
  (∀ v model, truthy v = false → compile_criteria v model = Ok PyTrue)
  ∧ (∀ (columns : gmap string Column) op pre post,
       MongoCriteria.is_boolean_list_key op = true →
       MongoCriteria.statetement columns (PDict (pre ++ (op, PList []) :: post))
       = MongoCriteria.statetement columns (PDict (pre ++ post))).
Proof.
  split.
  - intros v model Hv. unfold compile_criteria, MongoCriteria.init. rewrite Hv.
    simpl. unfold MongoCriteria.call. rewrite statetement_entries. simpl.
    rewrite bool_decide_eq_true_2; [done|].
    intros k Hk. apply elem_of_difference in Hk as [Hk _].
    by apply not_elem_of_empty in Hk.
  - intros columns op pre post Hop. rewrite !statetement_entries.
    rewrite criteria_keys_boolean by by apply boolean_list_key_is_boolean.
    apply result_bind_ext; [done|]. intros _.
    apply result_bind_ext; [|done].
    rewrite !criteria_conditions_app. apply result_bind_ext; [done|]. intros before.
    cbn [criteria_conditions]. unfold entry_conditions. rewrite Hop. simpl.
    by destruct (criteria_conditions columns post).
Qed.

Lemma empty_contributes_nothing_witness :
  compile_criteria PNone example_model = Ok PyTrue
  ∧ MongoCriteria.statetement (model_columns example_model)
      (PDict ([("age", PInt 5)] ++ ("$or", PList []) :: [("name", PStr "x")]))
    = MongoCriteria.statetement (model_columns example_model)
        (PDict ([("age", PInt 5)] ++ [("name", PStr "x")])).
Proof.
  destruct empty_contributes_nothing as [Hfalse Hempty]. split.
  - apply Hfalse. reflexivity.
  - apply Hempty. reflexivity.
Defined.

(** X16: a bare value is an equality. For a column entry whose value is not
    a dict, the criteria compiles as it does with the value wrapped in
    [{$eq: value}], wherever the entry stands in the criteria. *)
Theorem bare_value_is_equality (columns : gmap string Column) name value pre post :
  name ∉ MongoCriteria.boolean_keys →
  isinstance_dict value = false →
  MongoCriteria.statetement columns (PDict (pre ++ (name, value) :: post))
  = MongoCriteria.statetement columns
      (PDict (pre ++ (name, PDict [("$eq", value)]) :: post)).
Proof.
  intros Hname Hvalue. apply not_boolean_key in Hname as [Hlist Hnot].
  rewrite !statetement_entries.
  rewrite (criteria_keys_replace pre post name value (PDict [("$eq", value)])).
  apply result_bind_ext; [done|]. intros _.
  apply result_bind_ext; [|done].
  rewrite !criteria_conditions_app. apply result_bind_ext; [done|]. intros before.
  cbn [criteria_conditions]. apply result_bind_ext; [|done].
  unfold entry_conditions. rewrite Hlist, Hnot.
  unfold MongoCriteria.column_conditions. by destruct value.
Qed.

Lemma bare_value_is_equality_witness :
  MongoCriteria.statetement (model_columns example_model)
    (PDict ([] ++ ("age", PInt 5) :: [("name", PStr "x")]))
  = MongoCriteria.statetement (model_columns example_model)
      (PDict ([] ++ ("age", PDict [("$eq", PInt 5)]) :: [("name", PStr "x")])).
Proof.
  apply bare_value_is_equality; [by apply plain_name_not_boolean_key | reflexivity].
Defined.

(** X17: a criteria with a key that is neither a boolean operator nor a
    column of the schema is refused with the assertion on the column names,
    whatever else it holds. *)
Theorem criteria_unknown_column (columns : gmap string Column) entries name criteria :
  (name, criteria) ∈ entries →
  name ∉ MongoCriteria.boolean_keys →
  columns !! name = None →
  MongoCriteria.statetement columns (PDict entries)
  = Raise (AssertionError "Invalid column specified in Criteria").
Proof.
  intros Hin Hname Hcol. rewrite statetement_entries.
  rewrite bool_decide_eq_false_2; [done|].
  intros Hsub. assert (Hdom : name ∈ dom columns).
  { apply Hsub, elem_of_difference. split; [|done].
    apply elem_of_list_to_set, list_elem_of_fmap. by exists (name, criteria). }
  apply elem_of_dom in Hdom as [col Hdom]. congruence.
Qed.

Lemma criteria_unknown_column_witness :
  MongoCriteria.statetement (model_columns example_model)
    (PDict [("age", PInt 5); ("email", PStr "x")])
  = Raise (AssertionError "Invalid column specified in Criteria").
Proof.
  apply (criteria_unknown_column _ _ "email" (PStr "x")).
  - right. by left.
  - by apply plain_name_not_boolean_key.
  - reflexivity.
Defined.

Lemma prefix_append s t : String.prefix s (s ++ t) = true.
Proof.
  induction s as [|c s IH]; simpl; [by destruct t|].
  by destruct (ascii_dec c c).
Qed.

Lemma mentions_append pre s post : mentions s (pre ++ s ++ post) = true.
Proof.
  induction pre as [|c pre IH].
  - change ("" ++ s ++ post) with (s ++ post).
    pose proof (prefix_append s post) as Hpre.
    destruct (s ++ post); cbn [mentions]; by rewrite Hpre.
  - change (String c pre ++ s ++ post) with (String c (pre ++ s ++ post)).
    cbn [mentions]. rewrite IH. apply orb_true_r.
Qed.

Lemma unsupported_operator op :
  op ∉ supported_operators →
  ∀ col value,
    MongoCriteria.operator_condition col op value
    = Raise (AssertionError
               ("Criteria: unsupported operator " ++ MongoCriteria.dquote ++ op
                  ++ MongoCriteria.dquote)).
Proof.
  unfold supported_operators. rewrite !not_elem_of_cons.
  intros (H1 & H2 & H3 & H4 & H5 & H6 & H7 & H8 & H9 & H10 & H11 & _) col value.
  unfold MongoCriteria.operator_condition.
  apply String.eqb_neq in H1, H2, H3, H4, H5, H6, H7, H8, H9, H10, H11.
  by rewrite H1, H2, H3, H4, H5, H6, H7, H8, H9, H10, H11.
Qed.

(** X18: an operator of a column entry outside the eleven supported ones is
    refused with an assertion whose message names the operator. *)
Theorem unsupported_operator_named (columns : gmap string Column) name col op value :
  name ∉ MongoCriteria.boolean_keys →
  columns !! name = Some col →
  op ∉ supported_operators →
  ∃ msg,
    MongoCriteria.statetement columns (PDict [(name, PDict [(op, value)])])
    = Raise (AssertionError msg)
    ∧ mentions op msg = true.
Proof.
  intros Hname Hcol Hop.
  rewrite (statetement_column_entry _ _ _ _ Hname Hcol). simpl.
  rewrite (unsupported_operator op Hop). simpl. eexists. split; [done|].
  apply (mentions_append ("Criteria: unsupported operator " ++ MongoCriteria.dquote)
           op MongoCriteria.dquote).
Qed.

Lemma unsupported_operator_named_witness :
  ∃ msg,
    MongoCriteria.statetement (model_columns example_model)
      (PDict [("age", PDict [("$regex", PStr "x")])])
    = Raise (AssertionError msg)
    ∧ mentions "$regex" msg = true.
Proof.
  apply (unsupported_operator_named _ "age" age_column).
  - by apply plain_name_not_boolean_key.
  - reflexivity.
  - apply (bool_decide_unpack _). vm_compute. exact I.
Defined.

(** X19: equality and containment on array columns. On an array column
    [$eq] with an operand that is not a list is ANY(array) = operand, and with
    a list operand it is the equality of the column and the list cast to the
    array type; on a scalar column it is plain equality. [$all] with a list
    operand on an array column is array containment of the cast list. *)
Theorem eq_leaf_semantics (columns : gmap string Column) name col value :
  name ∉ MongoCriteria.boolean_keys →
  columns !! name = Some col →
  (is_array col = true → isinstance_list value = false →
   MongoCriteria.statetement columns (PDict [(name, PDict [("$eq", value)])])
   = Ok (And_ [AnyOf (ColumnRef col) (Bind value)]))
  ∧ (is_array col = false →
     MongoCriteria.statetement columns (PDict [(name, PDict [("$eq", value)])])
     = Ok (And_ [Compare Eq (ColumnRef col) (Bind value)]))
  ∧ (∀ elements, is_array col = true → value = PList elements →
     MongoCriteria.statetement columns (PDict [(name, PDict [("$eq", value)])])
     = Ok (And_ [Compare Eq (ColumnRef col) (CastArray elements (item_type col))])
     ∧ MongoCriteria.statetement columns (PDict [(name, PDict [("$all", value)])])
       = Ok (And_ [Contains (ColumnRef col) (CastArray elements (item_type col))])).
Proof.
  intros Hname Hcol.
  rewrite !(statetement_column_entry _ _ _ _ Hname Hcol).
  unfold MongoCriteria.operator_condition. simpl.
  split; [|split].
  - intros -> Hlist. rewrite Hlist. by destruct value.
  - intros ->. by destruct value.
  - intros elements -> ->. done.
Qed.

Lemma eq_leaf_semantics_witness :
  MongoCriteria.statetement (model_columns example_model)
    (PDict [("tags", PDict [("$eq", PStr "a")])])
  = Ok (And_ [AnyOf (ColumnRef tags_column) (Bind (PStr "a"))]).
Proof.
  apply (eq_leaf_semantics (model_columns example_model) "tags" tags_column (PStr "a"));
    [by apply plain_name_not_boolean_key | reflexivity..].
Defined.

(** X20: the argument of a boolean operator. When the keys of a criteria
    pass the assertion on the column names and its first entry is [$or],
    [$and] or [$nor] with an argument that is not a list, or [$not] with an
    argument that is not a dict, the criteria is refused with the assertion
    on the argument; for the three list operators the message names the
    operator. *)
Theorem boolean_argument_refused (columns : gmap string Column) op argument rest :
  Forall (fun entry : string * pyval =>
            entry.1 ∈ MongoCriteria.boolean_keys ∨ is_Some (columns !! entry.1)) rest →
  (MongoCriteria.is_boolean_list_key op = true → isinstance_list argument = false →
   MongoCriteria.statetement columns (PDict ((op, argument) :: rest))
   = Raise (AssertionError ("Criteria: " ++ op ++ " argument must be a list")))
  ∧ (op = "$not" → isinstance_dict argument = false →
     MongoCriteria.statetement columns (PDict ((op, argument) :: rest))
     = Raise (AssertionError "Criteria: $not argument must be a dict")).
Proof.
  intros Hrest.
  assert (Hkeys : op ∈ MongoCriteria.boolean_keys →
            list_to_set (((op, argument) :: rest).*1) ∖ MongoCriteria.boolean_keys
            ⊆@{gset string} dom columns).
  { intros Hop k Hk. apply elem_of_difference in Hk as [Hk Hout].
    apply elem_of_list_to_set in Hk. rewrite fmap_cons in Hk.
    apply elem_of_cons in Hk as [->|Hk]; [done|].
    apply list_elem_of_fmap in Hk as (entry & -> & Hentry).
    rewrite Forall_forall in Hrest. destruct (Hrest _ Hentry) as [?|Hcol]; [done|].
    by apply elem_of_dom. }
  split.
  - intros Hop Hlist. rewrite statetement_entries.
    rewrite bool_decide_eq_true_2 by by apply Hkeys, boolean_list_key_is_boolean.
    simpl. unfold entry_conditions. rewrite Hop. by destruct argument.
  - intros -> Hdict. rewrite statetement_entries.
    rewrite bool_decide_eq_true_2.
    2:{ apply Hkeys. unfold MongoCriteria.boolean_keys.
        rewrite !elem_of_union, !elem_of_singleton. tauto. }
    simpl. by destruct argument.
Qed.

Lemma boolean_argument_refused_witness :
  MongoCriteria.statetement (model_columns example_model)
    (PDict [("$or", PDict [("age", PInt 5)]); ("name", PStr "x")])
  = Raise (AssertionError ("Criteria: " ++ "$or" ++ " argument must be a list")).
Proof.
  apply (boolean_argument_refused (model_columns example_model) "$or"
           (PDict [("age", PInt 5)]) [("name", PStr "x")]).
  - constructor; [right; by eexists | constructor].
  - reflexivity.
  - reflexivity.
Defined.

(** X21: a flat criteria over scalar columns. When every entry of a
    criteria is a scalar column with a value that is not a dict, the criteria
    compiles to the conjunction of one equality per entry, in the order of the
    entries; the conjunction is self-grouped when there is more than one
    entry, and is the constant [True] when there is none. *)
Theorem flat_criteria_conjunction (columns : gmap string Column)
    (entries : list (string * pyval)) :
  Forall (fun entry : string * pyval =>
            (entry.1 ∉ MongoCriteria.boolean_keys)
            ∧ isinstance_dict entry.2 = false
            ∧ ∃ col, columns !! entry.1 = Some col ∧ is_array col = false) entries →
  ∃ conditions,
    MongoCriteria.statetement columns (PDict entries)
    = Ok (match conditions with
          | [] => PyTrue
          | [_] => And_ conditions
          | _ => SelfGroup (And_ conditions)
          end)
    ∧ Forall2 (fun (entry : string * pyval) condition =>
                 ∃ col, columns !! entry.1 = Some col
                   ∧ condition = Compare Eq (ColumnRef col) (Bind entry.2))
              entries conditions.
Proof.
  intros Hentries. rewrite statetement_entries.
  rewrite bool_decide_eq_true_2.
  2:{ intros k Hk. apply elem_of_difference in Hk as [Hk _].
      apply elem_of_list_to_set, list_elem_of_fmap in Hk as (entry & -> & Hentry).
      rewrite Forall_forall in Hentries.
      destruct (Hentries _ Hentry) as (_ & _ & col & Hcol & _).
      apply elem_of_dom. by eexists. }
  simpl.
  assert (Hloop : ∃ conditions,
            criteria_conditions columns entries = Ok conditions
            ∧ Forall2 (fun (entry : string * pyval) condition =>
                         ∃ col, columns !! entry.1 = Some col
                           ∧ condition = Compare Eq (ColumnRef col) (Bind entry.2))
                      entries conditions).
  { induction Hentries as [|[name value] entries (Hname & Hvalue & col & Hcol & Harray) _
                             (conditions & Hconditions & HR)].
    - exists []. by split.
    - exists (Compare Eq (ColumnRef col) (Bind value) :: conditions). simpl in *.
      apply not_boolean_key in Hname as [Hlist Hnot].
      unfold entry_conditions. rewrite Hlist, Hnot.
      unfold MongoCriteria.column_conditions, getitem. rewrite Hcol. simpl.
      replace (match value with PDict operators => operators | _ => [("$eq", value)] end)
        with [("$eq", value)] by (by destruct value).
      simpl. unfold MongoCriteria.operator_condition. simpl. rewrite Harray.
      replace (match value with PList _ => Bind value | _ => Bind value end)
        with (Bind value) by (by destruct value).
      simpl. rewrite Hconditions. simpl. split; [done|].
      constructor; [by exists col | done]. }
  destruct Hloop as (conditions & -> & HR). exists conditions. split; [|done].
  simpl. by destruct conditions as [|c1 [|c2 conditions]].
Qed.

Lemma flat_criteria_conjunction_witness :
  ∃ conditions,
    MongoCriteria.statetement (model_columns example_model)
      (PDict [("age", PInt 18); ("name", PStr "x")])
    = Ok (match conditions with
          | [] => PyTrue
          | [_] => And_ conditions
          | _ => SelfGroup (And_ conditions)
          end)
    ∧ Forall2 (fun (entry : string * pyval) condition =>
                 ∃ col, model_columns example_model !! entry.1 = Some col
                   ∧ condition = Compare Eq (ColumnRef col) (Bind entry.2))
              [("age", PInt 18); ("name", PStr "x")] conditions.
Proof.
  apply flat_criteria_conjunction.
  constructor; [|constructor; [|constructor]].
  - split; [by apply plain_name_not_boolean_key|]. split; [done|]. by exists age_column.
  - split; [by apply plain_name_not_boolean_key|]. split; [done|]. by exists name_column.
Defined.

(** ** Criteria: no [KeyError] *)

Lemma bind_no_key_error {A B} (m : result A) (f : A → result B) :
  ¬ raises_key_error m → (∀ a, ¬ raises_key_error (f a)) → ¬ raises_key_error (m ≫= f).
Proof.
  intros Hm Hf. destruct m as [a|e]; simpl; [apply Hf|].
  intros [msg [= ->]]. apply Hm. by exists msg.
Qed.

Lemma ok_no_key_error {A} (a : A) : ¬ raises_key_error (Ok a).
Proof. by intros [msg ?]. Qed.

Lemma assert_no_key_error cond msg : ¬ raises_key_error (py_assert cond msg).
Proof. destruct cond; by intros [? ?]. Qed.

Lemma traverse_no_key_error {A B} (f : A → result B) (l : list A) :
  Forall (fun x => ¬ raises_key_error (f x)) l → ¬ raises_key_error (traverse f l).
Proof.
  induction 1 as [|x l Hx _ IH]; simpl; [apply ok_no_key_error|].
  apply bind_no_key_error; [done|]. intros y.
  apply bind_no_key_error; [done|]. intros ys. apply ok_no_key_error.
Qed.

Lemma operator_condition_no_key_error col op value :
  ¬ raises_key_error (MongoCriteria.operator_condition col op value).
Proof.
  unfold MongoCriteria.operator_condition.
  repeat (case_match; try apply ok_no_key_error);
    repeat (apply bind_no_key_error; [|intros ?]);
    try apply assert_no_key_error; try apply ok_no_key_error;
    try (by intros [? ?]).
  all: unfold MongoCriteria.operand_truth; repeat case_match;
    try apply ok_no_key_error; by intros [? ?].
Qed.

Lemma depth_item (items : list pyval) item :
  item ∈ items → (depth item < depth (PList items))%nat.
Proof.
  cbn [depth]. induction items as [|x items IH]; intros Hin.
  - by apply not_elem_of_nil in Hin.
  - apply elem_of_cons in Hin as [->|Hin]; simpl; [lia|].
    specialize (IH Hin). lia.
Qed.

Lemma depth_entry (entries : list (string * pyval)) entry :
  entry ∈ entries → (depth entry.2 < depth (PDict entries))%nat.
Proof.
  cbn [depth]. induction entries as [|x entries IH]; intros Hin.
  - by apply not_elem_of_nil in Hin.
  - apply elem_of_cons in Hin as [->|Hin]; simpl; [lia|].
    specialize (IH Hin). lia.
Qed.

(** X22: compiling a criteria never ends in a [KeyError], whatever the
    criteria and the schema: the lookup of a column comes after the assertion
    on the column names, and the branch that raises [KeyError] for an unknown
    boolean operator is not reached. *)
Theorem statetement_never_key_error (columns : gmap string Column) criteria :
  ¬ raises_key_error (MongoCriteria.statetement columns criteria).
Proof.
  remember (S (depth criteria)) as n eqn:Hn.
  assert (Hdepth : (depth criteria < n)%nat) by lia. clear Hn.
  revert criteria Hdepth. induction n as [|n IH]; intros criteria Hdepth; [lia|].
  destruct criteria as [| | | | |entries]; try (by intros [? ?]).
  rewrite statetement_entries.
  destruct (bool_decide _) eqn:Hkeys; simpl; [|by intros [? ?]].
  apply bool_decide_eq_true_1 in Hkeys.
  apply bind_no_key_error; [|intros ?; apply ok_no_key_error].
  assert (Hentries : Forall (fun entry : string * pyval =>
                               (depth entry.2 < n)%nat
                               ∧ (entry.1 ∈ MongoCriteria.boolean_keys
                                  ∨ is_Some (columns !! entry.1))) entries).
  { apply Forall_forall. intros entry Hentry. split.
    - pose proof (depth_entry _ _ Hentry). lia.
    - destruct (decide (entry.1 ∈ MongoCriteria.boolean_keys)) as [?|Hout]; [by left|].
      right. apply elem_of_dom, Hkeys, elem_of_difference. split; [|done].
      apply elem_of_list_to_set, list_elem_of_fmap. by exists entry. }
  clear Hkeys Hdepth.
  induction Hentries as [|[col_name c] entries [Hc Hname] _ IHentries];
    [apply ok_no_key_error|].
  cbn [criteria_conditions]. simpl in Hc, Hname.
  apply bind_no_key_error;
    [|intros ?; apply bind_no_key_error; [done | intros ?; apply ok_no_key_error]].
  unfold entry_conditions.
  destruct (MongoCriteria.is_boolean_list_key col_name) eqn:Hlist.
  - destruct c as [| | | |[|s subcriteria]|]; try (by intros [? ?]).
    apply bind_no_key_error.
    + apply traverse_no_key_error, Forall_forall. intros item Hitem.
      apply IH. pose proof (depth_item _ _ Hitem). lia.
    + intros compiled. apply bind_no_key_error; [|intros ?; apply ok_no_key_error].
      unfold MongoCriteria.boolean_condition, MongoCriteria.is_boolean_list_key in *.
      destruct (String.eqb col_name "$or"); [apply ok_no_key_error|].
      destruct (String.eqb col_name "$and"); [apply ok_no_key_error|].
      destruct (String.eqb col_name "$nor"); [apply ok_no_key_error|done].
  - destruct (String.eqb col_name "$not") eqn:Hnot.
    + destruct c; try (by intros [? ?]).
      apply bind_no_key_error; [by apply IH | intros ?; apply ok_no_key_error].
    + destruct Hname as [Hbool|[col Hcol]].
      * exfalso. revert Hbool. unfold MongoCriteria.boolean_keys.
        unfold MongoCriteria.is_boolean_list_key in Hlist.
        rewrite !orb_false_iff, !String.eqb_neq in Hlist.
        apply String.eqb_neq in Hnot.
        rewrite !elem_of_union, !elem_of_singleton. tauto.
      * unfold MongoCriteria.column_conditions, getitem. rewrite Hcol. simpl.
        apply traverse_no_key_error, Forall_forall. intros [op value] _.
        apply operator_condition_no_key_error.
Qed.

(** ** Join *)

(** X23: the two ends of a join. A request that Python takes as false
    ([None], the empty string, the empty list) demotes every relation of the
    schema to lazy loading; and for a request whose names are all relations of
    the schema, the plan is empty exactly when every relation is requested. *)
Theorem join_extremes model :
  (∀ relnames,
     relnames = MongoJoin.InNone ∨ relnames = MongoJoin.InStr ""
     ∨ relnames = MongoJoin.InList [] →
     compile_join relnames model
     = Ok (lazyload <$> elements (dom (model_relations model))))
  ∧ (∀ requested : list string,
       (∀ r, r ∈ requested → r ∈ dom (model_relations model)) →
       MongoJoin.call requested model = Ok []
       ↔ ∀ r, r ∈ dom (model_relations model) → r ∈ requested).
Proof.
  split.
  - intros relnames Hempty.
    assert (Hinit : MongoJoin.init relnames = Ok [])
      by (by destruct Hempty as [-> | [-> | ->]]).
    unfold compile_join. rewrite Hinit. simpl.
    unfold MongoJoin.call, MongoJoin.options. simpl.
    rewrite bool_decide_eq_true_2 by apply empty_subseteq. simpl.
    f_equal. f_equal. apply filter_all, Forall_forall. intros r _. apply not_elem_of_empty.
  - intros requested Hknown. unfold MongoJoin.call, MongoJoin.options.
    rewrite bool_decide_eq_true_2
      by (intros r Hr; apply elem_of_list_to_set in Hr; by apply Hknown).
    simpl. split.
    + intros [= Hplan] r Hr. apply fmap_nil_inv in Hplan.
      destruct (decide (r ∈ requested)) as [|Hout]; [done|].
      assert (Hin : r ∈ filter (fun relname => relname ∉ (list_to_set requested : gset string))
                         (elements (dom (model_relations model)))).
      { apply list_elem_of_filter. split; [by rewrite elem_of_list_to_set|].
        by apply elem_of_elements. }
      rewrite Hplan in Hin. by apply not_elem_of_nil in Hin.
    + intros Hall. f_equal.
      destruct (filter _ _) as [|r rest] eqn:Hfilter; [done|].
      assert (Hin : r ∈ filter (fun relname => relname ∉ (list_to_set requested : gset string))
                         (elements (dom (model_relations model))))
        by (rewrite Hfilter; by left).
      apply list_elem_of_filter in Hin as [Hout Hin].
      apply elem_of_elements, Hall in Hin. by rewrite elem_of_list_to_set in Hout.
Qed.

Lemma join_extremes_witness :
  compile_join (MongoJoin.InStr "") example_model
  = Ok (lazyload <$> elements (dom (model_relations example_model))).
Proof.
  destruct (join_extremes example_model) as [Hempty _].
  apply Hempty. right. by left.
Defined.

(** X24: for relation names that hold no comma, the comma-separated string
    and the list of the names are the same join request; a list that holds
    only the empty name is the exception, its string being empty. *)
Theorem join_string_is_list names :
  Forall (fun name => free_of comma name = true) names →
  names ≠ [""] →
  MongoJoin.init (MongoJoin.InStr (String.concat "," names))
  = MongoJoin.init (MongoJoin.InList names).
Proof.
  intros Hfree Hnames. unfold MongoJoin.init.
  destruct names as [|name names]; [done|].
  cbn [length Nat.eqb].
  destruct (String.eqb (String.concat "," (name :: names)) "") eqn:Hempty.
  - apply String.eqb_eq in Hempty. exfalso. apply Hnames.
    destruct names as [|b names]; [by simpl in Hempty; subst|].
    change (String.concat "," (name :: b :: names))
      with (name ++ String comma (String.concat "," (b :: names))) in Hempty.
    by destruct name.
  - by rewrite split_concat.
Qed.

Lemma join_string_is_list_witness :
  MongoJoin.init (MongoJoin.InStr (String.concat "," ["posts"; "profile"]))
  = MongoJoin.init (MongoJoin.InList ["posts"; "profile"]).
Proof.
  apply join_string_is_list; [by repeat constructor | done].
Defined.

(** ** Aggregate: the store *)

Lemma selectables_cons (columns : gmap string Column) comp_field comp_expression rest
    (h : MongoAggregate.store) :
  MongoAggregate.selectables columns ((comp_field, comp_expression) :: rest) h
  = match MongoAggregate.selectable columns comp_field comp_expression h with
    | (Ok s, h') =>
        match MongoAggregate.selectables columns rest h' with
        | (Ok ss, h'') => (Ok (s :: ss), h'')
        | (Raise e, h'') => (Raise e, h'')
        end
    | (Raise e, h') => (Raise e, h')
    end.
Proof.
  cbn [MongoAggregate.selectables]. unfold MongoAggregate.bind at 1.
  destruct (MongoAggregate.selectable _ _ _ h) as [[s|e] h']; [|done].
  unfold MongoAggregate.bind, MongoAggregate.pure.
  by destruct (MongoAggregate.selectables columns rest h') as [[ss|e] h''].
Qed.

(** What the loop body does to the store: nothing, or it empties the
    one-entry dict object of its computed expression. *)
Lemma selectable_store (columns : gmap string Column) comp_field comp_expression
    (h : MongoAggregate.store) :
  (MongoAggregate.selectable columns comp_field comp_expression h).2 = h
  ∨ ∃ l entry,
      comp_expression = MongoAggregate.DictAt l ∧ h !! l = Some [entry]
      ∧ (MongoAggregate.selectable columns comp_field comp_expression h).2 = <[l := []]> h.
Proof.
  destruct comp_expression as [column|l|]; [by left| |by left].
  destruct (h !! l) as [[|[operator expression] [|entry d]]|] eqn:Hl.
  - left. by rewrite selectable_emptied_dict.
  - right. exists l, (operator, expression). split; [done|]. split; [done|].
    by rewrite (selectable_single_entry _ _ _ _ _ _ Hl).
  - left. unfold MongoAggregate.selectable, MongoAggregate.bind, MongoAggregate.deref,
      MongoAggregate.lift. by rewrite Hl.
  - left. unfold MongoAggregate.selectable, MongoAggregate.bind, MongoAggregate.deref,
      MongoAggregate.lift. by rewrite Hl.
Qed.

(** When the loop body succeeds on a computed expression, the dict object
    held one entry and is left empty. *)
Lemma selectable_success (columns : gmap string Column) comp_field l
    (h h' : MongoAggregate.store) s :
  MongoAggregate.selectable columns comp_field (MongoAggregate.DictAt l) h = (Ok s, h') →
  (∃ entry, h !! l = Some [entry]) ∧ h' = <[l := []]> h.
Proof.
  destruct (h !! l) as [[|[operator expression] [|entry d]]|] eqn:Hl.
  - by rewrite selectable_emptied_dict.
  - rewrite (selectable_single_entry _ _ _ _ _ _ Hl). intros [= _ <-].
    split; [by eexists | done].
  - unfold MongoAggregate.selectable, MongoAggregate.bind, MongoAggregate.deref,
      MongoAggregate.lift. by rewrite Hl.
  - unfold MongoAggregate.selectable, MongoAggregate.bind, MongoAggregate.deref,
      MongoAggregate.lift. by rewrite Hl.
Qed.

Lemma locations_cons comp_field comp_expression rest :
  locations ((comp_field, comp_expression) :: rest)
  = match comp_expression with
    | MongoAggregate.DictAt l => l :: locations rest
    | _ => locations rest
    end.
Proof. by destruct comp_expression. Qed.

(** The effect of the compilation on one location of the store: it holds
    what it held, or the spec refers to it and it holds the empty dict. *)
Lemma selectables_store (columns : gmap string Column) agg_spec
    (h : MongoAggregate.store) l :
  (MongoAggregate.selectables columns agg_spec h).2 !! l = h !! l
  ∨ (l ∈ locations agg_spec
     ∧ (MongoAggregate.selectables columns agg_spec h).2 !! l = Some []).
Proof.
  revert h. induction agg_spec as [|[comp_field comp_expression] rest IH]; intros h;
    [by left|].
  rewrite locations_cons, selectables_cons.
  assert (Hstep : (MongoAggregate.selectable columns comp_field comp_expression h).2 !! l
                  = h !! l
                  ∨ (comp_expression = MongoAggregate.DictAt l
                     ∧ (MongoAggregate.selectable columns comp_field comp_expression h).2 !! l
                       = Some [])).
  { destruct (selectable_store columns comp_field comp_expression h)
      as [-> | (l' & entry & -> & _ & ->)]; [by left|].
    destruct (decide (l' = l)) as [->|Hne].
    - right. split; [done|]. apply lookup_insert_eq.
    - left. by apply lookup_insert_ne. }
  assert (Hin : ∀ P : Prop, (l ∈ locations rest ∧ P) →
            l ∈ match comp_expression with
                | MongoAggregate.DictAt l0 => l0 :: locations rest
                | _ => locations rest
                end ∧ P).
  { intros P [Hl HP]. split; [|done]. destruct comp_expression; try done. by right. }
  destruct (MongoAggregate.selectable columns comp_field comp_expression h)
    as [[s|e] h1]; simpl in Hstep.
  - specialize (IH h1).
    destruct (MongoAggregate.selectables columns rest h1) as [[ss|e] h2]; simpl in *.
    + destruct IH as [IH|IH]; [|right; by apply Hin].
      rewrite IH. destruct Hstep as [?|[-> ?]]; [by left|]. right. split; [by left|done].
    + destruct IH as [IH|IH]; [|right; by apply Hin].
      rewrite IH. destruct Hstep as [?|[-> ?]]; [by left|]. right. split; [by left|done].
  - destruct Hstep as [?|[-> ?]]; [by left|]. right. split; [by left|done].
Qed.

(** X25: the aggregate compiler touches only the dict objects of the spec,
    and only to empty them. Whether the compilation succeeds or raises, a
    location the spec does not refer to holds what it held, and every location
    holds what it held or the empty dict. *)
Theorem aggregate_frame (columns : gmap string Column) agg_spec
    (h : MongoAggregate.store) :
  (∀ l, l ∉ locations agg_spec →
        (MongoAggregate.selectables columns agg_spec h).2 !! l = h !! l)
  ∧ (∀ l, (MongoAggregate.selectables columns agg_spec h).2 !! l = h !! l
          ∨ (MongoAggregate.selectables columns agg_spec h).2 !! l = Some []).
Proof.
  split; intros l.
  - intros Hout. by destruct (selectables_store columns agg_spec h l) as [?|[? _]].
  - destruct (selectables_store columns agg_spec h l) as [?|[_ ?]]; [by left | by right].
Qed.

Lemma aggregate_frame_witness :
  (MongoAggregate.selectables (model_columns example_model) count_spec
     (<[2%positive := [("$max", PStr "age")]]> count_store)).2 !! 2%positive
  = (<[2%positive := [("$max", PStr "age")]]> count_store) !! 2%positive.
Proof.
  apply aggregate_frame. apply (bool_decide_unpack _). vm_compute. exact I.
Defined.

Lemma selectables_emptied (columns : gmap string Column) agg_spec
    (h : MongoAggregate.store) l :
  l ∈ locations agg_spec → h !! l = Some [] →
  ∀ plan h', MongoAggregate.selectables columns agg_spec h ≠ (Ok plan, h').
Proof.
  revert h. induction agg_spec as [|[comp_field comp_expression] rest IH];
    intros h Hin Hl plan h'.
  { by apply not_elem_of_nil in Hin. }
  rewrite selectables_cons. rewrite locations_cons in Hin.
  assert (Hcase : comp_expression = MongoAggregate.DictAt l
                  ∨ (comp_expression ≠ MongoAggregate.DictAt l ∧ l ∈ locations rest)).
  { destruct comp_expression as [|l'|]; [by right| |by right].
    apply elem_of_cons in Hin as [->|Hin]; [by left|].
    destruct (decide (l' = l)) as [->|Hne]; [by left|]. right. split; [congruence|done]. }
  destruct Hcase as [->|[Hne Hrest]].
  { by rewrite selectable_emptied_dict. }
  assert (Hstep : (MongoAggregate.selectable columns comp_field comp_expression h).2 !! l
                  = Some []).
  { destruct (selectable_store columns comp_field comp_expression h)
      as [-> | (l' & entry & -> & _ & ->)]; [done|].
    rewrite <- Hl. apply lookup_insert_ne. by intros ->. }
  destruct (MongoAggregate.selectable columns comp_field comp_expression h)
    as [[s|e] h1]; [|done]. simpl in Hstep.
  specialize (IH h1 Hrest Hstep).
  destruct (MongoAggregate.selectables columns rest h1) as [[ss|e] h2]; [|done].
  intros [= <- <-]. by apply (IH ss h2).
Qed.

(** X26: what a successful compilation did. When the aggregate compiler
    returns a plan, the plan has one selectable per entry of the spec, no two
    entries of the spec shared a dict object, and every dict object the spec
    refers to is left empty. *)
Theorem aggregate_success_consumes (columns : gmap string Column) agg_spec
    (h h' : MongoAggregate.store) plan :
  MongoAggregate.selectables columns agg_spec h = (Ok plan, h') →
  length plan = length agg_spec
  ∧ NoDup (locations agg_spec)
  ∧ ∀ l, l ∈ locations agg_spec → h' !! l = Some [].
Proof.
  revert h plan. induction agg_spec as [|[comp_field comp_expression] rest IH];
    intros h plan.
  { intros [= <- <-]. split; [done|]. split; [apply NoDup_nil_2|].
    intros l Hl. by apply not_elem_of_nil in Hl. }
  rewrite selectables_cons, locations_cons.
  destruct (MongoAggregate.selectable columns comp_field comp_expression h)
    as [[s|e] h1] eqn:Hsel; [|done].
  destruct (MongoAggregate.selectables columns rest h1) as [[ss|e] h2] eqn:Hrest; [|done].
  intros [= <- <-]. destruct (IH h1 ss Hrest) as (Hlen & Hnd & Hempty).
  split; [simpl; by rewrite Hlen|].
  destruct comp_expression as [column|l|]; [by split| |by split].
  apply selectable_success in Hsel as [_ ->].
  assert (Hfresh : l ∉ locations rest).
  { intros Hin. apply (selectables_emptied columns rest (<[l := []]> h) l Hin
                         (lookup_insert_eq _ _ _) ss h2 Hrest). }
  split; [by apply NoDup_cons|].
  intros l' Hl'. apply elem_of_cons in Hl' as [->|Hl']; [|by apply Hempty].
  destruct (selectables_store columns rest (<[l := []]> h) l) as [Hframe|[Hin _]];
    [|done].
  rewrite Hrest in Hframe. simpl in Hframe. rewrite Hframe. apply lookup_insert_eq.
Qed.

Lemma aggregate_success_consumes_witness :
  length [Label (Func "count" []) "n"] = length count_spec
  ∧ NoDup (locations count_spec)
  ∧ ∀ l, l ∈ locations count_spec
         → ({[ 1%positive := [] ]} : MongoAggregate.store) !! l = Some [].
Proof.
  apply (aggregate_success_consumes (model_columns example_model) count_spec count_store).
  vm_compute. reflexivity.
Defined.

(** ** Aggregate: the selectables *)

(** X27: a spec of column references. When every entry of the spec is the
    name of a column of the schema, the plan is those columns, each labeled
    with its output field, in the order of the spec, and the store is left as
    it is. *)
Theorem aggregate_column_references (columns : gmap string Column)
    (names : list (string * string)) (h : MongoAggregate.store) :
  Forall (fun entry : string * string => is_Some (columns !! entry.2)) names →
  ∃ plan,
    MongoAggregate.selectables columns
      ((fun entry : string * string => (entry.1, MongoAggregate.Name entry.2)) <$> names) h
    = (Ok plan, h)
    ∧ Forall2 (fun (entry : string * string) selectable =>
                 ∃ col, columns !! entry.2 = Some col
                   ∧ selectable = Label (ColumnRef col) entry.1)
              names plan.
Proof.
  induction 1 as [|[comp_field name] names [col Hcol] _ (plan & Hplan & HR)].
  - exists []. by split.
  - exists (Label (ColumnRef col) comp_field :: plan).
    rewrite fmap_cons, selectables_cons. simpl in *.
    unfold MongoAggregate.lift, getitem.
    rewrite bool_decide_eq_true_2 by (apply elem_of_dom; by eexists).
    simpl. rewrite Hcol. simpl. rewrite Hplan. split; [done|].
    constructor; [by exists col | done].
Qed.

Lemma aggregate_column_references_witness :
  ∃ plan,
    MongoAggregate.selectables (model_columns example_model)
      ((fun entry : string * string => (entry.1, MongoAggregate.Name entry.2))
         <$> [("years", "age"); ("who", "name")]) count_store
    = (Ok plan, count_store)
    ∧ Forall2 (fun (entry : string * string) selectable =>
                 ∃ col, model_columns example_model !! entry.2 = Some col
                   ∧ selectable = Label (ColumnRef col) entry.1)
              [("years", "age"); ("who", "name")] plan.
Proof.
  apply aggregate_column_references.
  constructor; [by eexists | constructor; [by eexists | constructor]].
Defined.

(** X28: the operators of a computed expression. Over the name of a column
    of the schema, [$max], [$min], [$avg] and [$sum] compile to the SQL
    function of the same name applied to the column, labeled with the output
    field; an integer operand is refused under [$max], [$min] and [$avg]; and
    an operator outside the four, over a column name, is refused with an
    assertion that names it. *)
Theorem aggregate_operators (columns : gmap string Column) label l
    (h : MongoAggregate.store) :
  (∀ f name col, f ∈ ["max"; "min"; "avg"; "sum"] →
     h !! l = Some [("$" ++ f, PStr name)] → columns !! name = Some col →
     (MongoAggregate.selectables columns [(label, MongoAggregate.DictAt l)] h).1
     = Ok [Label (Func f [ColumnRef col]) label])
  ∧ (∀ f n, f ∈ ["max"; "min"; "avg"] →
       h !! l = Some [("$" ++ f, PInt n)] →
       (MongoAggregate.selectables columns [(label, MongoAggregate.DictAt l)] h).1
       = Raise (AssertionError
                  "Aggregate: expression should be either a column name, or an object"))
  ∧ (∀ operator name col, operator ∉ ["$max"; "$min"; "$avg"; "$sum"] →
       h !! l = Some [(operator, PStr name)] → columns !! name = Some col →
       ∃ msg,
         (MongoAggregate.selectables columns [(label, MongoAggregate.DictAt l)] h).1
         = Raise (AssertionError msg)
         ∧ mentions operator msg = true).
Proof.
  split; [|split].
  - intros f name col Hf Hl Hcol. rewrite (selectables_single_entry _ _ _ _ _ _ Hl).
    assert (Hstmt : ∀ operator, operator ≠ "$sum" ∨ operator = "$sum" →
              MongoAggregate.expression_statement columns operator (PStr name)
              = Ok (inr (ColumnRef col))).
    { intros operator _. unfold MongoAggregate.expression_statement, getitem. simpl.
      rewrite bool_decide_eq_true_2 by (apply elem_of_dom; by eexists).
      simpl. by rewrite Hcol. }
    rewrite Hstmt by (destruct (decide ("$" ++ f = "$sum")); auto).
    repeat (apply elem_of_cons in Hf as [->|Hf]; [done|]).
    by apply not_elem_of_nil in Hf.
  - intros f n Hf Hl. rewrite (selectables_single_entry _ _ _ _ _ _ Hl).
    assert (Hop : String.eqb ("$" ++ f) "$sum" = false).
    { repeat (apply elem_of_cons in Hf as [->|Hf]; [done|]).
      by apply not_elem_of_nil in Hf. }
    unfold MongoAggregate.expression_statement. by rewrite Hop, andb_false_r.
  - intros operator name col Hop Hl Hcol.
    rewrite (selectables_single_entry _ _ _ _ _ _ Hl).
    rewrite !not_elem_of_cons in Hop. destruct Hop as (Hmax & Hmin & Havg & Hsum & _).
    apply String.eqb_neq in Hmax, Hmin, Havg, Hsum.
    unfold MongoAggregate.expression_statement, getitem. rewrite Hsum. simpl.
    rewrite bool_decide_eq_true_2 by (apply elem_of_dom; by eexists).
    simpl. rewrite Hcol. simpl.
    unfold MongoAggregate.computed_statement. rewrite Hmax, Hmin, Havg, Hsum.
    simpl. eexists. split; [done|].
    apply (mentions_append ("Aggregate: unsupported operator " ++ MongoCriteria.dquote)
             operator MongoCriteria.dquote).
Qed.

Lemma aggregate_operators_witness :
  (MongoAggregate.selectables (model_columns example_model)
     [("oldest", MongoAggregate.DictAt 1%positive)]
     {[ 1%positive := [("$max", PStr "age")] ]}).1
  = Ok [Label (Func "max" [ColumnRef age_column]) "oldest"].
Proof.
  destruct (aggregate_operators (model_columns example_model) "oldest" 1%positive
              {[ 1%positive := [("$max", PStr "age")] ]}) as (Hfunc & _).
  apply (Hfunc "max" "age"); [by left | reflexivity | reflexivity].
Defined.

(** X29: what the aggregate compiler refuses without touching the store: a
    computed expression whose dict does not hold exactly one entry, an
    expression that is neither a string nor a dict, and a column reference
    that is no column of the schema. *)
Theorem aggregate_refusals (columns : gmap string Column) label
    (h : MongoAggregate.store) :
  (∀ l d, h !! l = Some d → length d ≠ 1%nat →
     MongoAggregate.selectables columns [(label, MongoAggregate.DictAt l)] h
     = (Raise (AssertionError "Aggregate: expression can only contain a single operator"),
        h))
  ∧ MongoAggregate.selectables columns [(label, MongoAggregate.OtherObject)] h
    = (Raise (AssertionError
                "Aggregate: Expression should be either a column name, or an object"), h)
  ∧ (∀ name, columns !! name = None →
       ∃ msg,
         MongoAggregate.selectables columns [(label, MongoAggregate.Name name)] h
         = (Raise (AssertionError msg), h)
         ∧ mentions name msg = true).
Proof.
  split; [|split].
  - intros l d Hl Hd. rewrite selectables_cons.
    unfold MongoAggregate.selectable, MongoAggregate.bind, MongoAggregate.deref,
      MongoAggregate.lift.
    rewrite Hl. simpl.
    rewrite bool_decide_eq_false_2; [done|]. by intros [= ?].
  - by rewrite selectables_cons.
  - intros name Hname. rewrite selectables_cons. simpl. unfold MongoAggregate.lift.
    rewrite bool_decide_eq_false_2 by (by apply not_elem_of_dom).
    simpl. eexists. split; [done|].
    apply (mentions_append "Aggregate: Invalid column `" name "`").
Qed.

Lemma aggregate_refusals_witness :
  MongoAggregate.selectables (model_columns example_model)
    [("n", MongoAggregate.DictAt 1%positive)]
    {[ 1%positive := [("$sum", PInt 1); ("$max", PStr "age")] ]}
  = (Raise (AssertionError "Aggregate: expression can only contain a single operator"),
     {[ 1%positive := [("$sum", PInt 1); ("$max", PStr "age")] ]}).
Proof.
  destruct (aggregate_refusals (model_columns example_model) "n"
              {[ 1%positive := [("$sum", PInt 1); ("$max", PStr "age")] ]}) as (Hlen & _).
  apply (Hlen 1%positive [("$sum", PInt 1); ("$max", PStr "age")]); [reflexivity | done].
Defined.

(** ** Criteria: the [$ne] leaves *)

Lemma traverse_app {A B} (f : A → result B) (l1 l2 : list A) :
  traverse f (l1 ++ l2)
  = ys1 ← traverse f l1; ys2 ← traverse f l2; Ok (ys1 ++ ys2)%list.
Proof.
  induction l1 as [|x l1 IH]; simpl.
  - by destruct (traverse f l2).
  - destruct (f x) as [y|e]; simpl; [|done]. rewrite IH.
    destruct (traverse f l1) as [ys1|e]; simpl; [|done].
    by destruct (traverse f l2).
Qed.

Lemma ne_condition col value :
  ∃ p, MongoCriteria.operator_condition col "$ne" value = Ok p ∧ ne_predicate col value p.
Proof.
  unfold MongoCriteria.operator_condition. simpl.
  destruct (is_array col) eqn:Harray.
  - destruct value as [| | | |elements|]; simpl; eexists;
      (split; [done|]); try (by apply ne_all_differ).
    by apply (ne_array_list _ _ elements).
  - simpl. destruct value; eexists; (split; [done|]); by apply ne_scalar_column.
Qed.

Lemma entry_conditions_column (columns : gmap string Column) name operators :
  name ∉ MongoCriteria.boolean_keys →
  entry_conditions columns name (PDict operators)
  = col ← getitem columns name; operator_conditions col operators.
Proof.
  intros Hname. apply not_boolean_key in Hname as [Hlist Hnot].
  unfold entry_conditions. by rewrite Hlist, Hnot.
Qed.

(** When the loop over the entries succeeds, every key that is no boolean
    operator is a column. *)
Lemma criteria_conditions_keys (columns : gmap string Column) entries conditions :
  criteria_conditions columns entries = Ok conditions →
  list_to_set (entries.*1) ∖ MongoCriteria.boolean_keys ⊆@{gset string} dom columns.
Proof.
  revert conditions. induction entries as [|[k c] entries IH]; intros conditions.
  { intros _ x Hx. apply elem_of_difference in Hx as [Hx _].
    by apply not_elem_of_empty in Hx. }
  cbn [criteria_conditions].
  destruct (entry_conditions columns k c) as [cs|e] eqn:Hentry; simpl; [|done].
  destruct (criteria_conditions columns entries) as [more|e]; simpl; [|done].
  intros _ x Hx. apply elem_of_difference in Hx as [Hx Hout].
  apply elem_of_union in Hx as [Hx|Hx]; [apply elem_of_singleton in Hx as ->|].
  - simpl in Hout. apply not_boolean_key in Hout as [Hlist Hnot].
    unfold entry_conditions in Hentry. rewrite Hlist, Hnot in Hentry.
    unfold MongoCriteria.column_conditions, getitem in Hentry.
    apply elem_of_dom. destruct (columns !! k); [by eexists | done].
  - apply (IH more eq_refl). apply elem_of_difference. by split.
Qed.

Lemma statetement_ok (columns : gmap string Column) entries e :
  MongoCriteria.statetement columns (PDict entries) = Ok e →
  ∃ conditions,
    criteria_conditions columns entries = Ok conditions ∧ e = conjunction conditions.
Proof.
  rewrite statetement_entries. destruct (py_assert _ _) as [[]|?]; simpl; [|done].
  destruct (criteria_conditions columns entries) as [conditions|?]; simpl; [|done].
  intros [= <-]. by exists conditions.
Qed.

Lemma criteria_conditions_elem_of (columns : gmap string Column) entries conditions k c :
  criteria_conditions columns entries = Ok conditions →
  (k, c) ∈ entries →
  ∃ appended,
    entry_conditions columns k c = Ok appended ∧ ∀ x, x ∈ appended → x ∈ conditions.
Proof.
  revert conditions. induction entries as [|[k' c'] entries IH]; intros conditions Hok Hin.
  { by apply not_elem_of_nil in Hin. }
  cbn [criteria_conditions] in Hok.
  destruct (entry_conditions columns k' c') as [cs|?] eqn:Hentry; simpl in Hok; [|done].
  destruct (criteria_conditions columns entries) as [more|?]; simpl in Hok; [|done].
  injection Hok as <-. apply elem_of_cons in Hin as [[= -> ->]|Hin].
  - exists cs. split; [done|]. intros x Hx. apply elem_of_app. by left.
  - destruct (IH more eq_refl Hin) as (appended & Happ & Hsub).
    exists appended. split; [done|]. intros x Hx. apply elem_of_app. right. by apply Hsub.
Qed.

Lemma occurs_conjunction p c conditions :
  c ∈ conditions → occurs p c → occurs p (conjunction conditions).
Proof.
  intros Hin Hocc. destruct conditions as [|c1 conditions].
  { by apply not_elem_of_nil in Hin. }
  unfold conjunction, MongoCriteria.grouped.
  destruct (1 <? length (c1 :: conditions))%nat.
  - apply occurs_group. by apply (occurs_and _ _ c).
  - by apply (occurs_and _ _ c).
Qed.

Lemma occurs_boolean_condition p key compiled cc e :
  MongoCriteria.boolean_condition key compiled = Ok cc →
  e ∈ compiled → occurs p e → occurs p cc.
Proof.
  unfold MongoCriteria.boolean_condition, MongoCriteria.grouped. intros Hcc Hin Hocc.
  destruct (String.eqb key "$or");
    [|destruct (String.eqb key "$and"); [|destruct (String.eqb key "$nor"); [|done]]];
    injection Hcc as <-; destruct (1 <? length compiled)%nat;
    repeat (first [apply occurs_group | apply occurs_invert]);
    first [by apply (occurs_or _ _ e) | by apply (occurs_and _ _ e)].
Qed.

(** C5: every [$ne] leaf of a criteria compiles to the predicate the
    operator table gives it: on an array column with an operand that is not a
    list, ALL(array) != operand; in every other case (a scalar column with any
    operand, an array column with a list operand) the inequality of the column
    and the operand. The leaf itself never raises; wherever the leaf stands
    among the entries of a criteria and the operators of its column, the
    criteria compiles, when its other entries and operators do, to the
    conjunction that holds the predicate at the place of the leaf; and for a
    leaf at any depth under [$or], [$and], [$nor] and [$not], the predicate
    occurs in what the criteria compiles to. *)
Theorem ne_leaf_semantics (columns : gmap string Column) name value :
  (∀ col, ∃ p,
     MongoCriteria.operator_condition col "$ne" value = Ok p ∧ ne_predicate col value p)
  ∧ (∀ pre post ops1 ops2 col b0 b1 a0 a1,
       name ∉ MongoCriteria.boolean_keys →
       columns !! name = Some col →
       criteria_conditions columns pre = Ok b0 →
       operator_conditions col ops1 = Ok b1 →
       operator_conditions col ops2 = Ok a0 →
       criteria_conditions columns post = Ok a1 →
       ∃ p conditions,
         ne_predicate col value p
         ∧ conditions = (b0 ++ b1 ++ p :: a0 ++ a1)%list
         ∧ MongoCriteria.statetement columns
             (PDict (pre ++ (name, PDict (ops1 ++ ("$ne", value) :: ops2)) :: post))
           = Ok (MongoCriteria.grouped (And_ conditions) conditions))
  ∧ (∀ criteria e,
       MongoCriteria.statetement columns criteria = Ok e →
       leaf_of name "$ne" value criteria →
       ∃ col p, columns !! name = Some col ∧ ne_predicate col value p ∧ occurs p e).
Proof.
  split; [intros col; apply ne_condition|]. split.
  - intros pre post ops1 ops2 col b0 b1 a0 a1 Hname Hcol Hpre Hops1 Hops2 Hpost.
    destruct (ne_condition col value) as (p & Hp & Hpred).
    exists p, (b0 ++ b1 ++ p :: a0 ++ a1)%list. split; [done|]. split; [done|].
    rewrite statetement_entries.
    rewrite bool_decide_eq_true_2.
    2:{ intros k Hk. apply elem_of_difference in Hk as [Hk Hout].
        rewrite fmap_app, fmap_cons in Hk.
        apply elem_of_list_to_set, elem_of_app in Hk as [Hk|Hk].
        - apply (criteria_conditions_keys _ _ _ Hpre), elem_of_difference.
          split; [by apply elem_of_list_to_set | done].
        - apply elem_of_cons in Hk as [->|Hk]; [apply elem_of_dom; by eexists|].
          apply (criteria_conditions_keys _ _ _ Hpost), elem_of_difference.
          split; [by apply elem_of_list_to_set | done]. }
    simpl. rewrite criteria_conditions_app, Hpre. simpl.
    rewrite entry_conditions_column by done. unfold getitem. rewrite Hcol. simpl.
    unfold operator_conditions in *. rewrite traverse_app, Hops1. simpl.
    rewrite Hp. simpl. rewrite Hops2. simpl. rewrite Hpost. simpl.
    rewrite <- !app_assoc. simpl.
    by destruct b0, b1.
  - intros criteria e Hok Hleaf. revert e Hok.
    induction Hleaf as [entries operators Hin Hname Hop
                       |entries key items sub Hin Hkey Hsub Hleaf IH
                       |entries sub Hin Hleaf IH]; intros e Hok.
    + apply statetement_ok in Hok as (conditions & Hconditions & ->).
      destruct (criteria_conditions_elem_of _ _ _ _ _ Hconditions Hin)
        as (appended & Hentry & Hsubset).
      rewrite entry_conditions_column in Hentry by done. unfold getitem in Hentry.
      destruct (columns !! name) as [col|] eqn:Hcol; simpl in Hentry; [|done].
      destruct (traverse_elem_of _ _ _ Hentry) as [_ Hto].
      destruct (Hto _ Hop) as (c & Hc & Hcondition). simpl in Hcondition.
      destruct (ne_condition col value) as (p & Hp & Hpred).
      exists col, p. split; [done|]. split; [done|].
      apply (occurs_conjunction p c); [by apply Hsubset|].
      rewrite Hp in Hcondition. injection Hcondition as <-. apply occurs_here.
    + apply statetement_ok in Hok as (conditions & Hconditions & ->).
      destruct (criteria_conditions_elem_of _ _ _ _ _ Hconditions Hin)
        as (appended & Hentry & Hsubset).
      unfold entry_conditions in Hentry. rewrite Hkey in Hentry.
      destruct items as [|item items]; [by apply not_elem_of_nil in Hsub|].
      destruct (traverse (MongoCriteria.statetement columns) (item :: items))
        as [compiled|?] eqn:Hcompiled; simpl in Hentry; [|done].
      destruct (MongoCriteria.boolean_condition key compiled) as [cc|?] eqn:Hcc;
        simpl in Hentry; [|done].
      injection Hentry as <-.
      destruct (traverse_elem_of _ _ _ Hcompiled) as [_ Hto].
      destruct (Hto _ Hsub) as (e_sub & He_sub & Hstmt).
      destruct (IH e_sub Hstmt) as (col & p & Hcol & Hpred & Hocc).
      exists col, p. split; [done|]. split; [done|].
      apply (occurs_conjunction p cc); [apply Hsubset; by left|].
      by apply (occurs_boolean_condition p key compiled cc e_sub).
    + apply statetement_ok in Hok as (conditions & Hconditions & ->).
      destruct (criteria_conditions_elem_of _ _ _ _ _ Hconditions Hin)
        as (appended & Hentry & Hsubset).
      unfold entry_conditions in Hentry. simpl in Hentry.
      destruct Hleaf as [sub_entries ? ? ? ?|sub_entries ? ? ? ? ? ? ?|sub_entries ? ? ?];
        (destruct (MongoCriteria.statetement columns (PDict sub_entries))
           as [negated|?] eqn:Hstmt; simpl in Hentry; [|done];
         injection Hentry as <-;
         destruct (IH negated eq_refl) as (col & p & Hcol & Hpred & Hocc);
         exists col, p; split; [done|]; split; [done|];
         apply (occurs_conjunction p (Not_ negated)); [apply Hsubset; by left|];
         by apply occurs_not).
Qed.

Lemma ne_leaf_semantics_witness :
  (∃ col p,
     model_columns example_model !! "tags" = Some col
     ∧ ne_predicate col (PStr "a") p
     ∧ occurs p
         (And_ [SelfGroup
                  (Or_ [And_ [AllOf (ColumnRef tags_column) (Bind (PStr "a")) Ne];
                        And_ [Compare Lt (ColumnRef age_column) (Bind (PInt 18))]])]))
  ∧ ∃ p conditions,
      ne_predicate name_column (PStr "x") p
      ∧ conditions
        = ([Compare Ge (ColumnRef age_column) (Bind (PInt 65))] ++ [] ++ p :: [] ++ [])%list
      ∧ MongoCriteria.statetement (model_columns example_model)
          (PDict ([("age", PDict [("$gte", PInt 65)])]
                    ++ ("name", PDict ([] ++ ("$ne", PStr "x") :: [])) :: []))
        = Ok (MongoCriteria.grouped (And_ conditions) conditions).
Proof.
  split.
  - destruct (ne_leaf_semantics (model_columns example_model) "tags" (PStr "a"))
      as (_ & _ & Hnested).
    apply (Hnested
             (PDict [("$or", PList [PDict [("tags", PDict [("$ne", PStr "a")])];
                                    PDict [("age", PDict [("$lt", PInt 18)])]])])).
    + vm_compute. reflexivity.
    + apply (leaf_under_list _ _ _ _ "$or"
               [PDict [("tags", PDict [("$ne", PStr "a")])];
                PDict [("age", PDict [("$lt", PInt 18)])]]
               (PDict [("tags", PDict [("$ne", PStr "a")])]));
        [by left | reflexivity | by left |].
      apply (leaf_column _ _ _ _ [("$ne", PStr "a")]);
        [by left | by apply plain_name_not_boolean_key | by left].
  - destruct (ne_leaf_semantics (model_columns example_model) "name" (PStr "x"))
      as (_ & Hplace & _).
    apply (Hplace [("age", PDict [("$gte", PInt 65)])] [] [] [] name_column);
      [by apply plain_name_not_boolean_key | reflexivity..].
Defined.

(** ** Aggregate: the [$sum] entries *)

Lemma selectables_app (columns : gmap string Column) pre rest (h : MongoAggregate.store) :
  MongoAggregate.selectables columns (pre ++ rest) h
  = match MongoAggregate.selectables columns pre h with
    | (Ok before, h1) =>
        match MongoAggregate.selectables columns rest h1 with
        | (Ok after, h2) => (Ok (before ++ after)%list, h2)
        | (Raise e, h2) => (Raise e, h2)
        end
    | (Raise e, h1) => (Raise e, h1)
    end.
Proof.
  revert h. induction pre as [|[comp_field comp_expression] pre IH]; intros h.
  - simpl. unfold MongoAggregate.pure.
    by destruct (MongoAggregate.selectables columns rest h) as [[after|e] h2].
  - rewrite <- app_comm_cons, !selectables_cons.
    destruct (MongoAggregate.selectable columns comp_field comp_expression h)
      as [[s|e] h0]; [|done].
    rewrite IH.
    destruct (MongoAggregate.selectables columns pre h0) as [[before|e] h1]; [|done].
    by destruct (MongoAggregate.selectables columns rest h1) as [[after|e] h2].
Qed.

(** An entry [{label: {operator: expression}}] in the middle of a spec: when
    the entries before it compile and leave its dict object alone, the spec
    compiles as the entry and the entries after it do. *)
Lemma selectables_entry (columns : gmap string Column) pre label l post operator expression
    (h h1 : MongoAggregate.store) before :
  l ∉ locations pre →
  h !! l = Some [(operator, expression)] →
  MongoAggregate.selectables columns pre h = (Ok before, h1) →
  MongoAggregate.selectables columns (pre ++ (label, MongoAggregate.DictAt l) :: post) h
  = match (expression_stmt ← MongoAggregate.expression_statement columns operator expression;
           comp_stmt ← MongoAggregate.computed_statement operator expression_stmt;
           Ok (Label comp_stmt label)) with
    | Ok s =>
        match MongoAggregate.selectables columns post (<[l := []]> h1) with
        | (Ok after, h2) => (Ok (before ++ s :: after)%list, h2)
        | (Raise e, h2) => (Raise e, h2)
        end
    | Raise e => (Raise e, <[l := []]> h1)
    end.
Proof.
  intros Hfresh Hl Hpre.
  assert (Hl1 : h1 !! l = Some [(operator, expression)]).
  { destruct (selectables_store columns pre h l) as [Hsame|[Hin _]]; [|done].
    rewrite Hpre in Hsame. simpl in Hsame. by rewrite Hsame. }
  rewrite selectables_app, Hpre, selectables_cons.
  rewrite (selectable_single_entry _ _ _ _ _ _ Hl1).
  destruct (MongoAggregate.expression_statement columns operator expression)
    as [stmt|e]; simpl; [|done].
  destruct (MongoAggregate.computed_statement operator stmt) as [comp|e]; simpl; [|done].
  by destruct (MongoAggregate.selectables columns post (<[l := []]> h1)) as [[after|e] h2].
Qed.

(** C7, as stated, fails: [$sum] over [None], which is no integer, is
    refused and not compiled to a sum; and [$sum] over the integer 2^70, a
    [long] and not an [int], is refused and not compiled to [count() * n]. *)
Lemma sum_operand_counterexample :
  (MongoAggregate.selectables (model_columns example_model) count_spec
     {[ 1%positive := [("$sum", PNone)] ]}).1
  = Raise (AssertionError
             "Aggregate: expression should be either a column name, or an object")
  ∧ (MongoAggregate.selectables (model_columns example_model) count_spec
       {[ 1%positive := [("$sum", PInt (2 ^ 70))] ]}).1
    = Raise (AssertionError
               "Aggregate: expression should be either a column name, or an object")
  ∧ (MongoAggregate.selectables (model_columns example_model) count_spec
       {[ 1%positive := [("$sum", PInt (2 ^ 70))] ]}).1
    ≠ Ok [Label (Mul (Func "count" []) (PInt (2 ^ 70))) "n"].
Proof. vm_compute. repeat split; [reflexivity.. | discriminate]. Qed.

(** C7, amended: an entry [{label: {$sum: operand}}] at any place of a
    spec, its dict object not shared with an earlier entry, the entries
    before it compiling. When the entries after it compile, the plan of the
    spec is the plan of the entries before, the selectable of the entry, and
    the plan of the entries after, where the selectable is: for an operand
    [n] that is a Python [int] (a machine-word integer), [count()] labeled
    with the label when [n] is 1 and [count() * n] labeled with the label
    otherwise; for the name of a column of the schema, the sum of the column;
    for a criteria object that compiles, the sum of the predicate cast to an
    integer. Over [None], a list, or an integer that is a [long], the entry is
    refused with an assertion. *)
Theorem sum_entry_semantics (columns : gmap string Column) pre label l post operand
    (h h1 : MongoAggregate.store) before :
  l ∉ locations pre →
  h !! l = Some [("$sum", operand)] →
  MongoAggregate.selectables columns pre h = (Ok before, h1) →
  let spec := (pre ++ (label, MongoAggregate.DictAt l) :: post)%list in
  let compiles_to selectable :=
    ∀ after h2,
      MongoAggregate.selectables columns post (<[l := []]> h1) = (Ok after, h2) →
      MongoAggregate.selectables columns spec h
      = (Ok (before ++ selectable :: after)%list, h2) in
  (∀ n, operand = PInt n → - sys_maxint - 1 ≤ n ≤ sys_maxint →
     (n = 1 → compiles_to (Label (Func "count" []) label))
     ∧ (n ≠ 1 → compiles_to (Label (Mul (Func "count" []) (PInt n)) label)))
  ∧ (∀ name col, operand = PStr name → columns !! name = Some col →
       compiles_to (Label (Func "sum" [ColumnRef col]) label))
  ∧ (∀ criteria predicate, operand = PDict criteria →
       MongoCriteria.statetement columns (PDict criteria) = Ok predicate →
       compiles_to (Label (Func "sum" [Cast predicate Integer]) label))
  ∧ (operand = PNone ∨ (∃ items, operand = PList items)
     ∨ (∃ n, operand = PInt n ∧ ¬ (- sys_maxint - 1 ≤ n ≤ sys_maxint)) →
     MongoAggregate.selectables columns spec h
     = (Raise (AssertionError
                 "Aggregate: expression should be either a column name, or an object"),
        <[l := []]> h1)).
Proof.
  intros Hfresh Hl Hpre spec compiles_to. unfold compiles_to, spec.
  rewrite (selectables_entry _ _ _ _ _ _ _ _ _ _ Hfresh Hl Hpre).
  split; [|split; [|split]].
  - intros n -> Hn.
    assert (Hint : isinstance_int (PInt n) = true).
    { simpl. apply andb_true_iff. split; apply Z.leb_le; lia. }
    unfold MongoAggregate.expression_statement. rewrite Hint. simpl. split.
    + intros -> after h2 ->. done.
    + intros Hne after h2 ->. unfold py_eq_int. simpl.
      by rewrite (proj2 (Z.eqb_neq n 1) Hne).
  - intros name col -> Hcol after h2 ->.
    unfold MongoAggregate.expression_statement, getitem. simpl.
    rewrite bool_decide_eq_true_2 by (apply elem_of_dom; by eexists).
    simpl. by rewrite Hcol.
  - intros criteria predicate -> Hpredicate after h2 ->.
    unfold MongoAggregate.expression_statement.
    cbn [isinstance_int andb]. by rewrite Hpredicate.
  - intros [-> | [[items ->] | (n & -> & Hn)]]; [done | done |].
    assert (Hlong : isinstance_int (PInt n) = false).
    { simpl. apply andb_false_iff.
      destruct (Z.leb_spec (- sys_maxint - 1) n); [|by left].
      right. apply Z.leb_gt. lia. }
    unfold MongoAggregate.expression_statement. by rewrite Hlong.
Qed.

Lemma sum_entry_semantics_witness :
  MongoAggregate.selectables (model_columns example_model)
    ([("who", MongoAggregate.Name "name")]
       ++ ("total", MongoAggregate.DictAt 1%positive)
       :: [("oldest", MongoAggregate.DictAt 2%positive)])%list
    {[ 1%positive := [("$sum", PInt 3)]; 2%positive := [("$max", PStr "age")] ]}
  = (Ok ([Label (ColumnRef name_column) "who"]
           ++ Label (Mul (Func "count" []) (PInt 3)) "total"
           :: [Label (Func "max" [ColumnRef age_column]) "oldest"])%list,
     {[ 1%positive := []; 2%positive := [] ]}).
Proof.
  destruct (sum_entry_semantics (model_columns example_model)
              [("who", MongoAggregate.Name "name")] "total" 1%positive
              [("oldest", MongoAggregate.DictAt 2%positive)] (PInt 3)
              {[ 1%positive := [("$sum", PInt 3)]; 2%positive := [("$max", PStr "age")] ]}
              {[ 1%positive := [("$sum", PInt 3)]; 2%positive := [("$max", PStr "age")] ]}
              [Label (ColumnRef name_column) "who"]) as (Hint & _).
  - apply not_elem_of_nil.
  - reflexivity.
  - reflexivity.
  - destruct (Hint 3 eq_refl) as [_ Hmul]; [unfold sys_maxint; lia|].
    apply Hmul; [lia|]. vm_compute. reflexivity.
Defined.
